(** * openai_batch_manager: the batch lifecycle, embedded and verified

    A shallow embedding of [openai_batch_manager/utils.py],
    [openai_batch_manager/batch_manager.py] and the entry point
    [run_batch_processing] of [openai_batch_manager/cli.py].

    Python code runs in a monad [M] that threads the state of the outside
    world (file system, HTTP request counter, allocated clients), collects
    the observable events of the run (log records, HTTP requests, sleeps) and
    ends in a returned value, a raised exception, or exhaustion of the fuel
    that bounds the one unbounded loop of the program. *)

From stdpp Require Import gmap strings list pretty.
From Stdlib Require Import ZArith Lia Ascii.

Local Open Scope string_scope.
Local Open Scope list_scope.
Local Open Scope Z_scope.

(** ** Exceptions

    The exception classes the code raises, catches or lets through.  All of
    them derive from Python's [Exception].  [RequestError] stands for
    [httpx.RequestError] (transport failures: connection errors, timeouts);
    [HTTPStatusError] is raised by [response.raise_for_status()] and is not a
    subclass of [RequestError]. *)

Inductive exn : Type :=
| RequestError
| HTTPStatusError (code : Z)
| FileNotFoundError (path : string)
| NameError (name : string)
| KeyError (key : string)
| TypeError
| AttributeError
| JSONDecodeError
| ValueError (msg : string)
| RuntimeError (msg : string)
| ZeroDivisionError.

(** [isinstance(e, httpx.RequestError)] *)
Definition is_RequestError (e : exn) : bool :=
  match e with RequestError => true | _ => false end.


(** ** JSON values of the remote API

    [response.json()] yields an object (a Python dict) or some other JSON
    value; the fields the code reads hold strings, numbers, booleans or
    null. *)

Inductive jval : Type :=
| JStr (s : string)
| JNum (n : Z)
| JBool (b : bool)
| JNull.

Inductive json : Type :=
| JObj (fields : list (string * jval))
| JNonObj.

(** ** Requests, replies and events *)

Inductive payload : Type :=
| Multipart (filename : string) (content : list string) (purpose : string)
| JsonBody (fields : list (string * jval)) (metadata : option (list (string * string)))
| NoBody.

Inductive http_method : Type := GET | POST.

Record request : Type := Request {
  req_method : http_method;
  req_url : string;
  req_payload : payload
}.

(** What one HTTP exchange comes to: a transport failure, or a response with
    a status code, a body ([None] when it is not JSON) and raw content (kept
    as the lines of the downloaded file). *)
Record response : Type := Response {
  status_code : Z;
  body : option json;
  content : list string
}.

Inductive reply : Type :=
| NetFail
| Resp (r : response).

Inductive level : Type := DEBUG | INFO | WARNING | ERROR.

(** Log records, one constructor per format string of the source. *)
Inductive message : Type :=
| MsgUploading (file_path : string)
| MsgUploaded (file_id : jval)
| MsgUploadHTTPError (code : Z)
| MsgUploadUnexpected (e : exn)
| MsgCreating (input_file_id : jval)
| MsgCreated (batch_id : jval)
| MsgCreateHTTPError (code : Z)
| MsgCreateUnexpected (e : exn)
| MsgChecking (batch_id : jval)
| MsgStatus (batch_id : jval) (status : jval)
| MsgStatusHTTPError (code : Z)
| MsgStatusUnexpected (e : exn)
| MsgDownloading (batch_id : jval) (output_file : string)
| MsgNoOutputUrl (batch_id : jval)
| MsgDownloaded (output_file : string)
| MsgDownloadHTTPError (code : Z)
| MsgDownloadUnexpected (e : exn)
| MsgErrorProcessing (chunk_file : string) (e : exn)
| MsgFailedToProcess (chunk_file : string) (e : exn)
| MsgFailedBatches (failed_batches : list string)
| MsgAllProcessed
| MsgDeleted (file_path : string)
| MsgDeleteFailed (file_path : string) (e : exn)
| MsgSplitting
| MsgTotalChunks (n : nat)
| MsgNoChunks
| MsgRunError (e : exn).

Inductive event : Type :=
| EvLog (lvl : level) (m : message)
| EvClientOpen (client : nat)
| EvClientClose (client : nat)
| EvHttp (client : nat) (rq : request)
| EvSleep (seconds : Z)
| EvWait (multiplier wmin wmax : Z) (attempt : nat)
| EvProgress (n : Z)
| EvProgressWrite (batch_id : jval) (status : jval).

(** ** The world and the monad *)

(** Files hold their lines; directories are a set of paths; [sent] counts the
    HTTP requests made so far and [clients] the HTTP clients created. *)
Record world : Type := World {
  fs : gmap string (list string);
  dirs : gset string;
  sent : nat;
  clients : nat
}.

Inductive result (A : Type) : Type :=
| Ret (a : A)
| Raise (e : exn)
| OutOfFuel.
Arguments Ret {A} a.
Arguments Raise {A} e.
Arguments OutOfFuel {A}.

Definition M (A : Type) : Type := world → result A * world * list event.

Definition ret {A} (a : A) : M A := λ w, (Ret a, w, []).
Definition raise {A} (e : exn) : M A := λ w, (Raise e, w, []).
Definition out_of_fuel {A} : M A := λ w, (OutOfFuel, w, []).

Definition bind {A B} (m : M A) (f : A → M B) : M B := λ w,
  match m w with
  | (Ret a, w1, e1) =>
      match f a w1 with (r, w2, e2) => (r, w2, e1 ++ e2) end
  | (Raise e, w1, e1) => (Raise e, w1, e1)
  | (OutOfFuel, w1, e1) => (OutOfFuel, w1, e1)
  end.

Notation "x <- m ; k" := (bind m (λ x, k))
  (at level 20, m at level 100, k at level 200, only parsing).
Notation "m ;;; k" := (bind m (λ _, k))
  (at level 100, k at level 200, right associativity, only parsing).

Definition emit (e : event) : M unit := λ w, (Ret tt, w, [e]).
Definition log (lvl : level) (m : message) : M unit := emit (EvLog lvl m).

(** [try: m  except Exception as e: h e] *)
Definition try_except {A} (m : M A) (h : exn → M A) : M A := λ w,
  match m w with
  | (Raise e, w1, e1) =>
      match h e w1 with (r, w2, e2) => (r, w2, e1 ++ e2) end
  | other => other
  end.

(** [try: m  finally: fin] *)
Definition try_finally {A} (m : M A) (fin : M unit) : M A := λ w,
  match m w with
  | (OutOfFuel, w1, e1) => (OutOfFuel, w1, e1)
  | (r, w1, e1) =>
      match fin w1 with
      | (Ret _, w2, e2) => (r, w2, e1 ++ e2)
      | (Raise e, w2, e2) => (Raise e, w2, e1 ++ e2)
      | (OutOfFuel, w2, e2) => (OutOfFuel, w2, e1 ++ e2)
      end
  end.

(** Projections of a run. *)
Definition outcome {A} (x : result A * world * list event) : result A := x.1.1.
Definition final {A} (x : result A * world * list event) : world := x.1.2.
Definition events {A} (x : result A * world * list event) : list event := x.2.

(** ** File system primitives

    The file system is kept in memory: a file is the list of its lines,
    reading a path that holds no file raises [FileNotFoundError], and writing
    creates or replaces the file. *)

(** [open(path, 'r')] / [open(path, 'rb')] followed by reading *)
Definition open_read (path : string) : M (list string) := λ w,
  match fs w !! path with
  | Some c => (Ret c, w, [])
  | None => (Raise (FileNotFoundError path), w, [])
  end.

(** [open(path, 'w')] / [open(path, 'wb')] followed by writing [c] *)
Definition open_write (path : string) (c : list string) : M unit := λ w,
  (Ret tt, World (<[path := c]> (fs w)) (dirs w) (sent w) (clients w), []).

(** [os.remove(path)] *)
Definition os_remove (path : string) : M unit := λ w,
  match fs w !! path with
  | Some _ => (Ret tt, World (delete path (fs w)) (dirs w) (sent w) (clients w), [])
  | None => (Raise (FileNotFoundError path), w, [])
  end.

(** [os.path.exists(path)] *)
Definition os_path_exists (path : string) : M bool := λ w,
  (Ret (bool_decide (is_Some (fs w !! path)) || bool_decide (path ∈ dirs w)), w, []).

(** [os.makedirs(path)] *)
Definition os_makedirs (path : string) : M unit := λ w,
  (Ret tt, World (fs w) ({[path]} ∪ dirs w) (sent w) (clients w), []).

(** ** utils.py *)

Module utils.

(** [f"{input_file}_chunk_{chunk_index}.jsonl"] *)
Definition chunk_filename (input_file : string) (chunk_index : Z) : string :=
  input_file +:+ "_chunk_" +:+ pretty chunk_index +:+ ".jsonl".

(** [line_number % chunk_size == 0]; Python's [%] raises on a zero divisor
    and otherwise takes the sign of the divisor, as [Z.modulo] does. *)
Definition py_mod (a b : Z) : M Z :=
  if b =? 0 then raise ZeroDivisionError else ret (a mod b).

(** The loop state of [split_jsonl_file]. *)
Record split_state : Type := SplitState {
  chunk : list string;
  chunk_index : Z;
  chunk_files : list string
}.

(** The body of [for line_number, line in enumerate(infile, start=1)],
    iterated over the remaining lines. *)
Fixpoint split_loop (input_file : string) (chunk_size : Z)
    (lines : list string) (line_number : Z) (s : split_state) : M split_state :=
  match lines with
  | [] => ret s
  | line :: rest =>
      let chunk1 := chunk s ++ [line] in
      r <- py_mod line_number chunk_size ;
      s1 <- (if r =? 0 then
               let chunk_filename := chunk_filename input_file (chunk_index s) in
               open_write chunk_filename chunk1 ;;;
               ret (SplitState [] (chunk_index s + 1)
                      (chunk_files s ++ [chunk_filename]))
             else ret (SplitState chunk1 (chunk_index s) (chunk_files s))) ;
      split_loop input_file chunk_size rest (line_number + 1) s1
  end.

Definition split_jsonl_file (input_file : string) (chunk_size : Z) : M (list string) :=
  infile <- open_read input_file ;
  s <- split_loop input_file chunk_size infile 1 (SplitState [] 1 []) ;
  (if bool_decide (chunk s ≠ []) then
     let chunk_filename := chunk_filename input_file (chunk_index s) in
     open_write chunk_filename (chunk s) ;;;
     ret (chunk_files s ++ [chunk_filename])
   else ret (chunk_files s)).

(** [ensure_directory] *)
Definition ensure_directory (path : string) : M unit :=
  b <- os_path_exists path ;
  if negb b then os_makedirs path else ret tt.

(** [clean_up_files]: each deletion is tried on its own; a failure is logged
    and the loop goes on. *)
Fixpoint clean_up_files (file_paths : list string) : M unit :=
  match file_paths with
  | [] => ret tt
  | file_path :: rest =>
      try_except
        (os_remove file_path ;;; log INFO (MsgDeleted file_path))
        (λ e, log ERROR (MsgDeleteFailed file_path e)) ;;;
      clean_up_files rest
  end.

End utils.

(** ** Python values *)

(** [str(v)], as an f-string formats a field value *)
Definition py_str (v : jval) : string :=
  match v with
  | JStr s => s
  | JNum n => pretty n
  | JBool true => "True"
  | JBool false => "False"
  | JNull => "None"
  end.

(** [bool(v)] *)
Definition truthy (v : jval) : bool :=
  match v with
  | JStr s => negb (String.eqb s "")
  | JNum n => negb (n =? 0)
  | JBool b => b
  | JNull => false
  end.

(** [v == s] for a string literal [s] *)
Definition eq_str (v : jval) (s : string) : bool :=
  match v with
  | JStr t => String.eqb t s
  | _ => false
  end.

Fixpoint assoc (fields : list (string * jval)) (key : string) : option jval :=
  match fields with
  | [] => None
  | (k, v) :: rest => if String.eqb k key then Some v else assoc rest key
  end.

(** [j[key]] *)
Definition py_subscript (j : json) (key : string) : M jval :=
  match j with
  | JObj fields =>
      match assoc fields key with
      | Some v => ret v
      | None => raise (KeyError key)
      end
  | JNonObj => raise TypeError
  end.

(** [d.get(key)] on a dict: a missing key yields [None] *)
Definition dict_get (fields : list (string * jval)) (key : string) : jval :=
  default JNull (assoc fields key).

(** [j.get(key)] *)
Definition py_get (j : json) (key : string) : M jval :=
  match j with
  | JObj fields => ret (dict_get fields key)
  | JNonObj => raise AttributeError
  end.

(** ** The environment of a run

    [globals] lists the names bound in the module namespace of
    [batch_manager.py]; [remote n rq] is what the exchange of the [n]-th
    request of the run, [rq], comes to. *)
Record env : Type := Env {
  globals : list string;
  remote : nat → request → reply
}.

(** Evaluation of a global name: [NameError] when it is unbound. *)
Definition lookup_global (E : env) (name : string) : M unit :=
  if bool_decide (name ∈ globals E) then ret tt else raise (NameError name).

Fixpoint has_slash (p : string) : bool :=
  match p with
  | EmptyString => false
  | String c rest => Ascii.eqb c "/"%char || has_slash rest
  end.

(** [posixpath.basename]: what follows the last slash *)
Fixpoint basename (p : string) : string :=
  match p with
  | EmptyString => EmptyString
  | String c rest =>
      if has_slash rest then basename rest
      else if Ascii.eqb c "/"%char then rest else p
  end.

(** [os.path.basename(p)], evaluated in the module namespace *)
Definition os_path_basename (E : env) (p : string) : M string :=
  lookup_global E "os" ;;; ret (basename p).

(** ** httpx *)

(** The world after one more request. *)
Definition bump (w : world) : world :=
  World (fs w) (dirs w) (S (sent w)) (clients w).

(** One exchange over the client: the request is counted and recorded, a
    transport failure raises [httpx.RequestError]. *)
Definition client_send (E : env) (client : nat) (rq : request) : M response := λ w,
  let w1 := bump w in
  match remote E (sent w) rq with
  | NetFail => (Raise RequestError, w1, [EvHttp client rq])
  | Resp r => (Ret r, w1, [EvHttp client rq])
  end.

Definition is_success (r : response) : bool :=
  (200 <=? status_code r) && (status_code r <? 300).

(** [response.raise_for_status()]: an error for every status outside 2xx *)
Definition raise_for_status (r : response) : M unit :=
  if is_success r then ret tt else raise (HTTPStatusError (status_code r)).

(** [response.json()] *)
Definition response_json (r : response) : M json :=
  match body r with
  | Some j => ret j
  | None => raise JSONDecodeError
  end.

(** ** tenacity

    [@retry(reraise=True, stop=stop_after_attempt(n),
            wait=wait_exponential(multiplier, min, max),
            retry=retry_if_exception_type(httpx.RequestError))]:
    the body is run again after a wait as long as it raises
    [httpx.RequestError] and fewer than [n] attempts were made; any other
    exception, and the [RequestError] of the last attempt, is re-raised. *)
Fixpoint retry_from {A} (multiplier wmin wmax : Z) (body : M A)
    (attempt_number : nat) (left : nat) : M A :=
  try_except body (λ e,
    if is_RequestError e then
      match left with
      | O => raise e
      | S left' =>
          emit (EvWait multiplier wmin wmax attempt_number) ;;;
          retry_from multiplier wmin wmax body (S attempt_number) left'
      end
    else raise e).

Definition retry {A} (stop_after_attempt : nat) (multiplier wmin wmax : Z)
    (body : M A) : M A :=
  retry_from multiplier wmin wmax body 1%nat (stop_after_attempt - 1)%nat.

(** ** batch_manager.py *)

Module batch_manager.

(** The names bound at module level: the imports, the logging set-up and the
    class itself. *)
Definition module_globals : list string :=
  ["asyncio"; "httpx"; "json"; "time"; "List"; "Optional"; "Dict";
   "API_KEY"; "COMPLETION_WINDOW"; "ENDPOINT";
   "ensure_directory"; "clean_up_files"; "logging";
   "retry"; "stop_after_attempt"; "wait_exponential"; "retry_if_exception_type";
   "tqdm_asyncio"; "logger"; "formatter"; "ch"; "fh"; "BatchManager"].

Record BatchManager : Type := Build_BatchManager {
  api_key : string;
  endpoint : string;
  completion_window : string;
  output_dir : string;
  client : nat
}.

(** [BatchManager.__init__]: the one place where an [httpx.AsyncClient] is
    created. *)
Definition init (api_key endpoint completion_window output_dir : string)
    : M BatchManager := λ w,
  let c := clients w in
  (Ret (Build_BatchManager api_key endpoint completion_window output_dir c),
   World (fs w) (dirs w) (sent w) (S c),
   [EvClientOpen c]).

(** [BatchManager.close] *)
Definition close (self : BatchManager) : M unit :=
  emit (EvClientClose (client self)).

(** The function under the decorator of [upload_file]. *)
Definition upload_file_body (E : env) (self : BatchManager) (file_path : string)
    : M jval :=
  log INFO (MsgUploading file_path) ;;;
  let upload_url := "/v1/files" in
  f <- open_read file_path ;
  name <- os_path_basename E file_path ;
  try_except
    (response <- client_send E (client self)
        (Request POST upload_url (Multipart name f "batch")) ;
     raise_for_status response ;;;
     j <- response_json response ;
     file_id <- py_subscript j "id" ;
     log INFO (MsgUploaded file_id) ;;;
     ret file_id)
    (λ e,
       match e with
       | HTTPStatusError code => log ERROR (MsgUploadHTTPError code) ;;; raise e
       | _ => log ERROR (MsgUploadUnexpected e) ;;; raise e
       end).

Definition upload_file (E : env) (self : BatchManager) (file_path : string)
    : M jval :=
  retry 5 1 4 10 (upload_file_body E self file_path).

(** [if metadata:] holds for a non-empty dict only. *)
Definition metadata_field (metadata : option (list (string * string)))
    : option (list (string * string)) :=
  match metadata with
  | Some (kv :: rest) => Some (kv :: rest)
  | _ => None
  end.

Definition create_batch_body (E : env) (self : BatchManager)
    (input_file_id : jval) (metadata : option (list (string * string))) : M jval :=
  log INFO (MsgCreating input_file_id) ;;;
  let create_url := "/v1/batches" in
  let payload :=
    JsonBody [("completion_window", JStr (completion_window self));
              ("endpoint", JStr (endpoint self));
              ("input_file_id", input_file_id)]
             (metadata_field metadata) in
  try_except
    (response <- client_send E (client self) (Request POST create_url payload) ;
     raise_for_status response ;;;
     j <- response_json response ;
     batch_id <- py_subscript j "id" ;
     log INFO (MsgCreated batch_id) ;;;
     ret batch_id)
    (λ e,
       match e with
       | HTTPStatusError code => log ERROR (MsgCreateHTTPError code) ;;; raise e
       | _ => log ERROR (MsgCreateUnexpected e) ;;; raise e
       end).

Definition create_batch (E : env) (self : BatchManager)
    (input_file_id : jval) (metadata : option (list (string * string))) : M jval :=
  retry 5 1 4 10 (create_batch_body E self input_file_id metadata).

Definition get_batch_status_body (E : env) (self : BatchManager) (batch_id : jval)
    : M json :=
  log DEBUG (MsgChecking batch_id) ;;;
  let retrieve_url := "/v1/batches/" +:+ py_str batch_id in
  try_except
    (response <- client_send E (client self) (Request GET retrieve_url NoBody) ;
     raise_for_status response ;;;
     status_info <- response_json response ;
     status <- py_get status_info "status" ;
     log DEBUG (MsgStatus batch_id status) ;;;
     ret status_info)
    (λ e,
       match e with
       | HTTPStatusError code => log ERROR (MsgStatusHTTPError code) ;;; raise e
       | _ => log ERROR (MsgStatusUnexpected e) ;;; raise e
       end).

Definition get_batch_status (E : env) (self : BatchManager) (batch_id : jval)
    : M json :=
  retry 5 1 4 10 (get_batch_status_body E self batch_id).

Definition download_batch_results_body (E : env) (self : BatchManager)
    (batch_id : jval) (output_file : string) : M unit :=
  log INFO (MsgDownloading batch_id output_file) ;;;
  batch_info <- get_batch_status E self batch_id ;
  download_url <- py_get batch_info "output_file_url" ;
  if negb (truthy download_url) then
    log ERROR (MsgNoOutputUrl batch_id) ;;;
    raise (ValueError "Output file URL not found in batch info.")
  else
    try_except
      (response <- match download_url with
                   | JStr url => client_send E (client self) (Request GET url NoBody)
                   | _ => raise TypeError
                   end ;
       raise_for_status response ;;;
       open_write output_file (content response) ;;;
       log INFO (MsgDownloaded output_file))
      (λ e,
         match e with
         | HTTPStatusError code => log ERROR (MsgDownloadHTTPError code) ;;; raise e
         | _ => log ERROR (MsgDownloadUnexpected e) ;;; raise e
         end).

Definition download_batch_results (E : env) (self : BatchManager)
    (batch_id : jval) (output_file : string) : M unit :=
  retry 3 1 2 5 (download_batch_results_body E self batch_id output_file).

(** [f"Batch {batch_id} ended with status: {status}"] *)
Definition ended_with (batch_id status : jval) : string :=
  "Batch " +:+ py_str batch_id +:+ " ended with status: " +:+ py_str status.

(** Terminal values of the polling loop. *)
Definition terminal (status : jval) : bool :=
  eq_str status "succeeded" || eq_str status "failed" || eq_str status "cancelled".

(** The [while True] loop of [process_batch]; [n] is [pbar.n].  Each unit of
    fuel pays for one iteration. *)
Fixpoint poll_loop (E : env) (self : BatchManager) (batch_id : jval)
    (fuel : nat) (n : Z) : M jval :=
  match fuel with
  | O => out_of_fuel
  | S fuel' =>
      status_info <- get_batch_status E self batch_id ;
      status <- py_get status_info "status" ;
      if eq_str status "succeeded" then
        emit (EvProgress (100 - n)) ;;;
        ret status
      else if eq_str status "failed" || eq_str status "cancelled" then
        emit (EvProgressWrite batch_id status) ;;;
        raise (RuntimeError (ended_with batch_id status))
      else
        emit (EvProgress 10) ;;;
        emit (EvSleep 30) ;;;
        poll_loop E self batch_id fuel' (n + 10)
  end.

(** [f"{self.output_dir}/results_{batch_id}.jsonl"] *)
Definition results_file (self : BatchManager) (batch_id : jval) : string :=
  output_dir self +:+ "/results_" +:+ py_str batch_id +:+ ".jsonl".

(** What [process_batch] does once the batch is created: poll until a
    terminal status ([status = None] before the loop and [pbar.n = 0]), then
    download the results if the status is ['succeeded']. *)
Definition poll_and_download (E : env) (self : BatchManager) (fuel : nat)
    (batch_id : jval) : M unit :=
  status <- poll_loop E self batch_id fuel 0 ;
  if eq_str status "succeeded" then
    let output_file := results_file self batch_id in
    download_batch_results E self batch_id output_file
  else ret tt.

Definition process_batch (E : env) (self : BatchManager) (fuel : nat)
    (chunk_file : string) : M unit :=
  try_except
    (file_id <- upload_file E self chunk_file ;
     batch_id <- create_batch E self file_id None ;
     poll_and_download E self fuel batch_id)
    (λ e, log ERROR (MsgErrorProcessing chunk_file e) ;;; raise e).

(** The [for chunk_file in chunk_files] loop of [process_batches], with its
    two accumulators. *)
Fixpoint process_loop (E : env) (self : BatchManager) (fuel : nat)
    (chunk_files failed_batches processed_files : list string)
    : M (list string * list string) :=
  match chunk_files with
  | [] => ret (failed_batches, processed_files)
  | chunk_file :: rest =>
      acc <- try_except
               (process_batch E self fuel chunk_file ;;;
                ret (failed_batches, processed_files ++ [chunk_file]))
               (λ e,
                  log ERROR (MsgFailedToProcess chunk_file e) ;;;
                  ret (failed_batches ++ [chunk_file], processed_files)) ;
      process_loop E self fuel rest acc.1 acc.2
  end.

Definition process_batches (E : env) (self : BatchManager) (fuel : nat)
    (chunk_files : list string) : M unit :=
  utils.ensure_directory (output_dir self) ;;;
  acc <- process_loop E self fuel chunk_files [] [] ;
  let failed_batches := acc.1 in
  let processed_files := acc.2 in
  utils.clean_up_files processed_files ;;;
  if bool_decide (failed_batches ≠ []) then
    log WARNING (MsgFailedBatches failed_batches)
  else
    log INFO MsgAllProcessed.

End batch_manager.

(** ** cli.py *)

Module cli.

Definition run_batch_processing (E : env) (API_KEY : string) (fuel : nat)
    (input_file output_dir : string) (chunk_size : Z)
    (completion_window endpoint : string) : M unit :=
  manager <- batch_manager.init API_KEY endpoint completion_window output_dir ;
  try_finally
    (try_except
       (log INFO MsgSplitting ;;;
        chunk_files <- utils.split_jsonl_file input_file chunk_size ;
        log INFO (MsgTotalChunks (length chunk_files)) ;;;
        if bool_decide (chunk_files = []) then
          log WARNING MsgNoChunks
        else
          batch_manager.process_batches E manager fuel chunk_files)
       (λ e, log ERROR (MsgRunError e)))
    (batch_manager.close manager).

End cli.

(** ** jsonl_helper.py

    The module reads and writes files and logs to a logger of its own; it
    makes no request.  Its functions run over the files alone, and emit the
    records of that logger and the lines [click.echo] prints.  As for the
    logger of batch_manager.py, the records are a stream of their own: the
    log file the handler appends them to is not one of the files. *)

Module jsonl_helper.

(** A dict with string keys and string values, in insertion order: a row of
    [csv.DictReader], or a record built by the command line. *)
Definition pydict : Type := list (string * string).

(** The library functions the module calls.  [json_loads] is [None] where
    [json.loads] raises [JSONDecodeError]; [json_dumps] is [json.dumps] on a
    dict of strings, whose result holds no line break; [csv_DictReader]
    gives the rows read from the lines of a file. *)
Record library : Type := Library {
  json_loads : string → option json;
  json_dumps : pydict → string;
  csv_DictReader : list string → list pydict
}.

(** Log records and echoed lines, one constructor per format string. *)
Inductive record : Type :=
| MsgConverting (csv_file jsonl_file : string)
| MsgConverted (csv_file jsonl_file : string)
| MsgConvertError (e : exn)
| MsgValidating (jsonl_file : string)
| MsgInvalidJSON (line_number : Z) (e : exn)
| MsgValid (jsonl_file : string)
| MsgValidateError (e : exn)
| MsgCreating (jsonl_file : string)
| MsgCreated (jsonl_file : string)
| MsgCreateError (e : exn).

Inductive echo : Type :=
| EchoValid (jsonl_file : string)
| EchoInvalid (jsonl_file : string)
| EchoCreated (jsonl_file : string) (records : nat).

Inductive output : Type :=
| Log (lvl : level) (r : record)
| Echo (err : bool) (m : echo).

Definition IO (A : Type) : Type :=
  gmap string (list string) → result A * gmap string (list string) * list output.

Definition io_ret {A} (a : A) : IO A := λ fs, (Ret a, fs, []).
Definition io_raise {A} (e : exn) : IO A := λ fs, (Raise e, fs, []).

Definition io_bind {A B} (m : IO A) (f : A → IO B) : IO B := λ fs,
  match m fs with
  | (Ret a, fs1, o1) =>
      match f a fs1 with (r, fs2, o2) => (r, fs2, o1 ++ o2) end
  | (Raise e, fs1, o1) => (Raise e, fs1, o1)
  | (OutOfFuel, fs1, o1) => (OutOfFuel, fs1, o1)
  end.

Local Notation "x <~ m ; k" := (io_bind m (λ x, k))
  (at level 20, m at level 100, k at level 200, only parsing).
Local Notation "m ;;~ k" := (io_bind m (λ _, k))
  (at level 100, k at level 200, right associativity, only parsing).

Definition logger (lvl : level) (r : record) : IO unit :=
  λ fs, (Ret tt, fs, [Log lvl r]).

Definition click_echo (err : bool) (m : echo) : IO unit :=
  λ fs, (Ret tt, fs, [Echo err m]).

(** [try: m  except Exception as e: h e] *)
Definition io_try {A} (m : IO A) (h : exn → IO A) : IO A := λ fs,
  match m fs with
  | (Raise e, fs1, o1) =>
      match h e fs1 with (r, fs2, o2) => (r, fs2, o1 ++ o2) end
  | run => run
  end.

(** [open(path, 'r')]: raises when no file is there. *)
Definition open_r (path : string) : IO unit := λ fs,
  match fs !! path with
  | Some _ => (Ret tt, fs, [])
  | None => (Raise (FileNotFoundError path), fs, [])
  end.

(** Iterating over the file opened at [path]: its lines at that moment. *)
Definition read_lines (path : string) : IO (list string) := λ fs,
  (Ret (default [] (fs !! path)), fs, []).

(** [open(path, 'w')]: the file is created, or emptied. *)
Definition open_w (path : string) : IO unit := λ fs,
  (Ret tt, <[path := []]> fs, []).

(** [f.write(line)] on the file opened at [path], [line] ending in its line
    break. *)
Definition write (path : string) (line : string) : IO unit := λ fs,
  (Ret tt, <[path := default [] (fs !! path) ++ [line]]> fs, []).

(** The line break ['\n']. *)
Definition LF : string := String "010"%char "".

Definition is_JSONDecodeError (e : exn) : bool :=
  match e with JSONDecodeError => true | _ => false end.

Definition loads (L : library) (s : string) : IO json :=
  match json_loads L s with
  | Some v => io_ret v
  | None => io_raise JSONDecodeError
  end.

(** [for r in rows: f_jsonl.write(json.dumps(r) + '\n')] *)
Fixpoint write_rows (L : library) (jsonl_file : string) (rows : list pydict)
    : IO unit :=
  match rows with
  | [] => io_ret tt
  | row :: rest =>
      let json_line := json_dumps L row in
      write jsonl_file (json_line +:+ LF) ;;~
      write_rows L jsonl_file rest
  end.


(** The loop of [validate_jsonl]; [Some b] when the loop body returned [b]. *)
Fixpoint validate_loop (L : library) (lines : list string) (line_number : Z)
    : IO (option bool) :=
  match lines with
  | [] => io_ret None
  | line :: rest =>
      returned <~ io_try
                    (loads L line ;;~ io_ret None)
                    (λ e, if is_JSONDecodeError e then
                            logger ERROR (MsgInvalidJSON line_number e) ;;~
                            io_ret (Some false)
                          else io_raise e) ;
      match returned with
      | Some b => io_ret (Some b)
      | None => validate_loop L rest (line_number + 1)
      end
  end.

Definition validate_jsonl (L : library) (jsonl_file : string) : IO bool :=
  logger INFO (MsgValidating jsonl_file) ;;~
  io_try
    (open_r jsonl_file ;;~
     f <~ read_lines jsonl_file ;
     returned <~ validate_loop L f 1 ;
     match returned with
     | Some b => io_ret b
     | None => logger INFO (MsgValid jsonl_file) ;;~ io_ret true
     end)
    (λ e, logger ERROR (MsgValidateError e) ;;~ io_raise e).

Definition create_jsonl_manual (L : library) (jsonl_file : string)
    (records : list pydict) : IO unit :=
  logger INFO (MsgCreating jsonl_file) ;;~
  io_try
    (open_w jsonl_file ;;~
     write_rows L jsonl_file records ;;~
     logger INFO (MsgCreated jsonl_file))
    (λ e, logger ERROR (MsgCreateError e) ;;~ io_raise e).

End jsonl_helper.

(** ** The [jsonl] commands of cli.py *)

Module cli_jsonl.

Import jsonl_helper.

(** [d[key] = value]: a key that is there keeps its place. *)
Fixpoint setitem (d : pydict) (key value : string) : pydict :=
  match d with
  | [] => [(key, value)]
  | (k, v) :: rest =>
      if bool_decide (k = key) then (k, value) :: rest
      else (k, v) :: setitem rest key value
  end.

(** [for key, value in record: current_record[key] = value] *)
Definition collect (record : list (string * string)) : pydict :=
  foldl (λ current_record kv, setitem current_record kv.1 kv.2) [] record.

Definition create_jsonl_manual_command (L : library) (jsonl_file : string)
    (record : list (string * string)) : IO unit :=
  let current_record := collect record in
  let records := if bool_decide (current_record ≠ []) then [current_record] else [] in
  io_bind (create_jsonl_manual L jsonl_file records) (λ _,
  click_echo false (EchoCreated jsonl_file (length records))).

End cli_jsonl.

(** ** Scripted remotes

    The remotes of the examples answer the [n]-th request of a run with the
    [n]-th reply of a list, and with a transport failure once the list is
    used up. *)

Definition scripted (replies : list reply) : nat → request → reply :=
  λ n _, nth n replies NetFail.

Definition ok_json (fields : list (string * jval)) : reply :=
  Resp (Response 200 (Some (JObj fields)) []).

Definition is_http (e : event) : bool :=
  match e with EvHttp _ _ => true | _ => false end.

Definition http_requests (es : list event) : nat :=
  length (List.filter is_http es).

(** * Specification vocabulary *)

(** ** Runs and what they keep *)

(** [prepend es x]: the run [x] with the events [es] put before its own. *)
Definition prepend {A} (es : list event) (x : result A * world * list event)
    : result A * world * list event :=
  (x.1.1, x.1.2, es ++ x.2).

(** [keeps R P m]: whatever the world [m] starts in, the world it ends in is
    related to it by [R] and every event it emits satisfies [P]. *)
Definition keeps {A} (R : relation world) (P : event → Prop) (m : M A) : Prop :=
  ∀ w, R w (final (m w)) ∧ Forall P (events (m w)).

(** The relation that holds between any two worlds. *)
Definition any_world : relation world := λ _ _, True.

(** [fs_grows w w']: every file of [w] is still there in [w']. *)
Definition fs_grows : relation world :=
  λ w w', ∀ path, is_Some (fs w !! path) → is_Some (fs w' !! path).

(** ** Classes of events *)

Definition is_submit_event (e : event) : bool :=
  match e with
  | EvLog _ (MsgCreating _) => true
  | EvHttp _ (Request POST "/v1/batches" _) => true
  | _ => false
  end.

Definition is_poll_event (e : event) : bool :=
  match e with
  | EvLog _ (MsgChecking _) => true
  | EvHttp _ (Request GET _ _) => true
  | EvSleep _ => true
  | _ => false
  end.

(** The downloads a run starts: batch and output file of the
    ["Downloading results"] records. *)
Fixpoint downloads (es : list event) : list (jval * string) :=
  match es with
  | [] => []
  | EvLog _ (MsgDownloading batch_id output_file) :: rest =>
      (batch_id, output_file) :: downloads rest
  | _ :: rest => downloads rest
  end.

Definition is_download_event (e : event) : bool :=
  match e with
  | EvLog _ (MsgDownloading _ _) => true
  | _ => false
  end.

(** [uses_client c e]: the event [e] neither opens nor closes an HTTP client,
    and if it is a request, it goes over the client [c]. *)
Definition uses_client (c : nat) (e : event) : Prop :=
  match e with
  | EvClientOpen _ | EvClientClose _ => False
  | EvHttp c' _ => c' = c
  | _ => True
  end.

(** ** The invariant of the Chunker *)

(** What holds between two iterations of the loop of [split_jsonl_file]:
    [seen] are the lines read so far and [units] the chunks written. *)
Record split_inv (input_file : string) (k : Z) (seen : list string)
    (s : utils.split_state) (w : world) (units : list (list string)) : Prop := {
  inv_names : utils.chunk_files s
              = utils.chunk_filename input_file <$> seqZ 1 (Z.of_nat (length units));
  inv_stored : ∀ (i : nat) u, units !! i = Some u →
              fs w !! utils.chunk_filename input_file (1 + Z.of_nat i) = Some u;
  inv_concat : concat units ++ utils.chunk s = seen;
  inv_full : Forall (λ u, Z.of_nat (length u) = k) units;
  inv_partial : Z.of_nat (length (utils.chunk s)) < k;
  inv_index : utils.chunk_index s = Z.of_nat (length units) + 1
}.

(** ** Attempts of a decorated function *)

(** [transient_attempts a n w w' es]: from the world [w], the attempts
    numbered [a], ..., [a + n - 1] of [body] each raise [RequestError] and
    are each followed by a wait; they lead to [w'] and emit [es]. *)
Inductive transient_attempts {A : Type} (multiplier wmin wmax : Z) (body : M A)
    : nat → nat → world → world → list event → Prop :=
| transient_nil a w : transient_attempts multiplier wmin wmax body a 0 w w []
| transient_cons a n w w1 e1 w2 es :
    body w = (Raise RequestError, w1, e1) →
    transient_attempts multiplier wmin wmax body (S a) n w1 w2 es →
    transient_attempts multiplier wmin wmax body a (S n) w w2
      (e1 ++ EvWait multiplier wmin wmax a :: es).

(** ** The request and the reply of an upload *)


(** What [raise_for_status] and [response.json()['id']] make of a response. *)
Definition id_of_response (r : response) : result jval :=
  if is_success r then
    match body r with
    | Some (JObj fields) =>
        match assoc fields "id" with
        | Some v => Ret v
        | None => Raise (KeyError "id")
        end
    | Some JNonObj => Raise TypeError
    | None => Raise JSONDecodeError
    end
  else Raise (HTTPStatusError (status_code r)).

(** ** Polls that find the batch pending *)

(** [pending_polls k w w' es]: from the world [w], [k] polls in a row each
    return a snapshot whose status is not terminal and are each followed by
    the 30 seconds of sleep; they lead to [w'] and emit [es]. *)
Inductive pending_polls (E : env) (self : batch_manager.BatchManager)
    (batch_id : jval) : nat → world → world → list event → Prop :=
| pending_nil w : pending_polls E self batch_id 0 w w []
| pending_cons k w fields w1 e1 w2 es :
    batch_manager.get_batch_status E self batch_id w = (Ret (JObj fields), w1, e1) →
    batch_manager.terminal (dict_get fields "status") = false →
    pending_polls E self batch_id k w1 w2 es →
    pending_polls E self batch_id (S k) w w2
      (e1 ++ EvProgress 10 :: EvSleep 30 :: es).

(** ** The units of a run *)

(** The record the final summary of [process_batches] comes to. *)
Definition report (failed_batches : list string) : event :=
  if bool_decide (failed_batches ≠ []) then
    EvLog WARNING (MsgFailedBatches failed_batches)
  else EvLog INFO MsgAllProcessed.

(** The units of a list of results that failed, and those that succeeded. *)
Fixpoint failed_units (results : list (string * option exn)) : list string :=
  match results with
  | [] => []
  | (chunk_file, Some _) :: rest => chunk_file :: failed_units rest
  | (_, None) :: rest => failed_units rest
  end.

Fixpoint succeeded_units (results : list (string * option exn)) : list string :=
  match results with
  | [] => []
  | (chunk_file, None) :: rest => chunk_file :: succeeded_units rest
  | (_, Some _) :: rest => succeeded_units rest
  end.

(** [units_run chunk_files w results w' es]: from the world [w],
    [process_batch] is run on each unit of [chunk_files] in turn, each run
    starting in the world the one before left; a run that returns gives the
    result [None], a run that raises [e] gives [Some e] and is followed by
    the record of the failure.  The runs lead to [w'] and emit [es]. *)
Inductive units_run (E : env) (self : batch_manager.BatchManager) (fuel : nat)
    : list string → world → list (string * option exn) →
      world → list event → Prop :=
| units_nil w : units_run E self fuel [] w [] w []
| units_succeeded chunk_file rest w w1 es results w2 es' :
    batch_manager.process_batch E self fuel chunk_file w = (Ret tt, w1, es) →
    units_run E self fuel rest w1 results w2 es' →
    units_run E self fuel (chunk_file :: rest) w ((chunk_file, None) :: results) w2 (es ++ es')
| units_failed chunk_file rest w e w1 es results w2 es' :
    batch_manager.process_batch E self fuel chunk_file w = (Raise e, w1, es) →
    units_run E self fuel rest w1 results w2 es' →
    units_run E self fuel (chunk_file :: rest) w ((chunk_file, Some e) :: results) w2
      (es ++ EvLog ERROR (MsgFailedToProcess chunk_file e) :: es').

(** ** Requests and replies of submit and poll *)

(** The request of [create_batch] for the uploaded file [input_file_id]. *)
Definition create_request (self : batch_manager.BatchManager) (input_file_id : jval)
    (metadata : option (list (string * string))) : request :=
  Request POST "/v1/batches"
    (JsonBody [("completion_window", JStr (batch_manager.completion_window self));
               ("endpoint", JStr (batch_manager.endpoint self));
               ("input_file_id", input_file_id)]
              (batch_manager.metadata_field metadata)).

(** The request of [get_batch_status] for the batch [batch_id]. *)
Definition status_request (batch_id : jval) : request :=
  Request GET ("/v1/batches/" +:+ py_str batch_id) NoBody.

(** What [raise_for_status], [response.json()] and the [.get('status')] of
    the debug record make of a response to a status request. *)
Definition snapshot_of_response (r : response) : result json :=
  if is_success r then
    match body r with
    | Some (JObj fields) => Ret (JObj fields)
    | Some JNonObj => Raise AttributeError
    | None => Raise JSONDecodeError
    end
  else Raise (HTTPStatusError (status_code r)).

(** [unchanged_outside Q w w']: the files whose path is not in [Q] are the
    same in [w] and [w']. *)
Definition unchanged_outside (Q : string → Prop) : relation world :=
  λ w w', ∀ path, ¬ Q path → fs w' !! path = fs w !! path.

(** ** The module as it is written *)

(** The records of a unit whose upload ends in the [NameError] of the unbound
    [os], in the loop of [process_batches]. *)
Definition name_error_records (chunk_file : string) : list event :=
  [EvLog INFO (MsgUploading chunk_file);
   EvLog ERROR (MsgErrorProcessing chunk_file (NameError "os"));
   EvLog ERROR (MsgFailedToProcess chunk_file (NameError "os"))].

(** ** Cleanup records *)

(** The record [clean_up_files] writes for [path] when the files are [files]:
    the deletion, or its failure when no file is there. *)
Definition cleanup_record (files : gmap string (list string)) (path : string) : event :=
  match files !! path with
  | Some _ => EvLog INFO (MsgDeleted path)
  | None => EvLog ERROR (MsgDeleteFailed path (FileNotFoundError path))
  end.

(** ** Paths *)

(** The chunk files of [input_file], and the result files of an output
    directory. *)
Definition is_chunk_of (input_file : string) (path : string) : Prop :=
  ∃ i, path = utils.chunk_filename input_file i.

Definition is_results_file (self : batch_manager.BatchManager) (path : string) : Prop :=
  ∃ batch_id, path = batch_manager.results_file self batch_id.

(** [same f w w']: the component [f] of the world is the same in [w] and
    [w']. *)
Definition same {A : Type} (f : world → A) : relation world :=
  λ w w', f w' = f w.

(** [sent_grows w w']: no request counted in [w] is forgotten in [w']. *)
Definition sent_grows : relation world := λ w w', (sent w ≤ sent w')%nat.

(** ** Runs with nothing to process *)

(** The records of a run of [run_batch_processing] that ends before any unit
    is processed, between the notice that the input is being split and the
    closing of the client: the input file is missing, or it is empty, or it
    has lines and the chunk size is zero.  [None] when units are processed. *)
Definition early_end (input_file : string) (chunk_size : Z) (w : world)
    : option (list event) :=
  match fs w !! input_file with
  | None => Some [EvLog ERROR (MsgRunError (FileNotFoundError input_file))]
  | Some [] => Some [EvLog INFO (MsgTotalChunks 0); EvLog WARNING MsgNoChunks]
  | Some (_ :: _) =>
      if chunk_size =? 0 then Some [EvLog ERROR (MsgRunError ZeroDivisionError)]
      else None
  end.

(** ** JSONL files *)

(** The line [create_jsonl_manual] and [csv_to_jsonl] write for a row. *)
Definition line_of (L : jsonl_helper.library) (row : jsonl_helper.pydict) : string :=
  jsonl_helper.json_dumps L row +:+ jsonl_helper.LF.

(** The first line [json.loads] rejects, with its index from 0. *)
Definition first_invalid (L : jsonl_helper.library) (lines : list string)
    : option (nat * string) :=
  list_find (λ line, ¬ is_Some (jsonl_helper.json_loads L line)) lines.

(** A library for the examples: every string that starts with a brace
    loads, every row is dumped as the empty object, and the reader gives one
    row per line after the header. *)
Definition braces : jsonl_helper.library :=
  jsonl_helper.Library
    (λ s, match s with String "{" _ => Some (JObj []) | _ => None end)
    (λ _, "{}")
    (λ lines, (λ _, []) <$> tail lines).

(** [with_clients c w]: the world [w] with [c] clients created. *)
Definition with_clients (c : nat) (w : world) : world :=
  World (fs w) (dirs w) (sent w) c.

(** [ignores_clients m]: [m] runs the same whatever the number of clients,
    and leaves that number as it was. *)
Definition ignores_clients {A : Type} (m : M A) : Prop :=
  ∀ c w, m (with_clients c w)
         = (outcome (m w), with_clients c (final (m w)), events (m w)).

(** * Properties *)

(** ** Strings and chunk file names *)

Section strings.

Lemma string_length_app (s t : string) :
  String.length (s +:+ t) = (String.length s + String.length t)%nat.
Proof. induction s as [|c s IH]; simpl; [done | by rewrite IH]. Qed.

Lemma string_app_inv_tail (s1 s2 t : string) : s1 +:+ t = s2 +:+ t → s1 = s2.
Proof.
  revert s2. induction s1 as [|c s1 IH]; intros [|d s2] H; simpl in H.
  - done.
  - apply (f_equal String.length) in H.
    rewrite !string_length_app in H. simpl in H. lia.
  - apply (f_equal String.length) in H.
    rewrite !string_length_app in H. simpl in H. lia.
  - injection H as -> H. f_equal. by apply IH.
Qed.

Lemma chunk_filename_inj (input_file : string) (i j : Z) :
  utils.chunk_filename input_file i = utils.chunk_filename input_file j → i = j.
Proof.
  unfold utils.chunk_filename. intros H.
  apply (inj (String.app input_file)) in H.
  apply (inj (String.app "_chunk_")) in H.
  apply string_app_inv_tail in H.
  by apply (inj pretty) in H.
Qed.

End strings.

(** ** The Chunker *)

Section chunker.

Variable input_file : string.
Variable k : Z.
Hypothesis k_pos : 0 < k.

Lemma seen_length seen s w units :
  split_inv input_file k seen s w units →
  Z.of_nat (length seen)
  = Z.of_nat (length units) * k + Z.of_nat (length (utils.chunk s)).
Proof.
  intros [_ _ <- Hfull _ _]. rewrite length_app, Nat2Z.inj_add. f_equal.
  clear -Hfull. induction Hfull as [|u units Hu _ IH]; simpl; [lia |].
  rewrite length_app. lia.
Qed.

Lemma line_number_mod (q c : Z) :
  1 ≤ c ≤ k → ((q * k + c) mod k =? 0) = (c =? k).
Proof.
  intros Hc. rewrite Z.add_comm, Z.mod_add by lia.
  destruct (Z.eqb_spec c k) as [->|Hne].
  - rewrite Z.mod_same by lia. done.
  - rewrite Z.mod_small by lia. apply Z.eqb_neq. lia.
Qed.

Lemma split_loop_spec (rest seen : list string) s w units :
  split_inv input_file k seen s w units →
  ∃ s' w' units',
    utils.split_loop input_file k rest (Z.of_nat (length seen) + 1) s w
      = (Ret s', w', []) ∧
    split_inv input_file k (seen ++ rest) s' w' units'.
Proof.
  revert seen s w units.
  induction rest as [|line rest IH]; intros seen s w units Hinv.
  { exists s, w, units. rewrite app_nil_r. done. }
  pose proof (seen_length _ _ _ _ Hinv) as Hlen.
  destruct Hinv as [Hnames Hstored Hconcat Hfull Hpartial Hindex].
  cbn [utils.split_loop]. unfold utils.py_mod.
  destruct (Z.eqb_spec k 0) as [?|_]; [lia |].
  unfold bind at 1. cbn [ret].
  replace (Z.of_nat (length seen) + 1)
    with (Z.of_nat (length units) * k + (Z.of_nat (length (utils.chunk s)) + 1))
    by lia.
  rewrite line_number_mod by lia.
  replace (Z.of_nat (length units) * k + (Z.of_nat (length (utils.chunk s)) + 1) + 1)
    with (Z.of_nat (length (seen ++ [line])) + 1)
    by (rewrite length_app; simpl; lia).
  destruct (Z.eqb_spec (Z.of_nat (length (utils.chunk s)) + 1) k) as [Hk|Hk].
  - (* the chunk is full: it is written out *)
    unfold bind at 1. unfold bind at 1. cbn [open_write ret].
    set (w1 := World _ _ _ _).
    set (s1 := utils.SplitState _ _ _).
    destruct (IH (seen ++ [line]) s1 w1 (units ++ [utils.chunk s ++ [line]]))
      as (s' & w' & units' & Hrun & Hinv').
    { split; subst s1 w1; cbn [utils.chunk utils.chunk_index utils.chunk_files fs].
      - rewrite length_app. cbn [length].
        rewrite Nat.add_1_r, seqZ_S, fmap_app, Hnames, Hindex.
        by rewrite (Z.add_comm 1).
      - intros i u Hi. apply lookup_app_Some in Hi as [Hi|[Hge Hi]].
        + rewrite lookup_insert_ne; [by apply Hstored |].
          intros Heq%chunk_filename_inj.
          apply lookup_lt_Some in Hi. lia.
        + apply list_lookup_singleton_Some in Hi as [Hi <-].
          replace (1 + Z.of_nat i) with (utils.chunk_index s) by lia.
          apply lookup_insert_eq.
      - rewrite concat_app, app_nil_r. cbn. rewrite app_nil_r, <- Hconcat.
        by rewrite !app_assoc.
      - apply Forall_app. split; [done |]. constructor; [|done].
        rewrite length_app. cbn. lia.
      - cbn. lia.
      - rewrite length_app. cbn. lia. }
    exists s', w', units'. rewrite Hrun. cbn. rewrite <- app_assoc in Hinv'. done.
  - (* the chunk grows *)
    unfold bind at 1. cbn [ret].
    set (s1 := utils.SplitState _ _ _).
    destruct (IH (seen ++ [line]) s1 w units) as (s' & w' & units' & Hrun & Hinv').
    { split; subst s1; cbn [utils.chunk utils.chunk_index utils.chunk_files]; try done.
      - rewrite <- Hconcat. by rewrite app_assoc.
      - rewrite length_app. cbn. lia. }
    exists s', w', units'. rewrite Hrun. cbn. rewrite <- app_assoc in Hinv'. done.
Qed.

End chunker.

Lemma split_inv_init (input_file : string) (k : Z) (w : world) :
  0 < k → split_inv input_file k [] (utils.SplitState [] 1 []) w [].
Proof. intros Hk. split; cbn; done. Qed.

Lemma ceil_div_exact (n q k : Z) :
  0 < k → n = q * k → q = (n + k - 1) / k.
Proof. intros Hk ->. apply Z.div_unique with (r := k - 1); lia. Qed.

Lemma ceil_div_partial (n q c k : Z) :
  0 < c < k → n = q * k + c → q + 1 = (n + k - 1) / k.
Proof. intros Hc ->. apply Z.div_unique with (r := c - 1); lia. Qed.

(** C2. For an input of N records and a positive chunk size k,
    [split_jsonl_file] returns the names of ceil(N/k) chunk files, numbered
    from 1; read back in that order the chunks concatenate to the input
    records, unchanged and in order; every chunk but the last holds exactly k
    records, and the last holds between 1 and k. *)
Theorem split_jsonl_file_chunks (input_file : string) (k : Z) (w : world)
    (records : list string) :
  fs w !! input_file = Some records →
  0 < k →
  ∃ (w' : world) (units : list (list string)),
    utils.split_jsonl_file input_file k w
      = (Ret (utils.chunk_filename input_file <$> seqZ 1 (Z.of_nat (length units))),
         w', []) ∧
    (∀ (i : nat) u, units !! i = Some u →
       fs w' !! utils.chunk_filename input_file (1 + Z.of_nat i) = Some u) ∧
    Z.of_nat (length units) = (Z.of_nat (length records) + k - 1) / k ∧
    concat units = records ∧
    (∀ (i : nat) u, units !! i = Some u → (S i < length units)%nat →
       Z.of_nat (length u) = k) ∧
    (∀ u, last units = Some u → 1 ≤ Z.of_nat (length u) ≤ k).
Proof.
  intros Hread Hk.
  destruct (split_loop_spec input_file k Hk records [] _ w [] (split_inv_init _ _ _ Hk))
    as (s & w1 & units & Hrun & Hinv).
  change (Z.of_nat (length (@nil string)) + 1) with 1 in Hrun.
  cbn [app] in Hinv.
  pose proof (seen_length _ _ _ _ _ _ Hinv) as Hlen.
  destruct Hinv as [Hnames Hstored Hconcat Hfull Hpartial Hindex].
  unfold utils.split_jsonl_file, bind at 1, open_read. rewrite Hread.
  unfold bind at 1. rewrite Hrun. cbn [app].
  destruct (utils.chunk s) as [|line chunk] eqn:Hchunk.
  - (* the input ended on a chunk boundary *)
    rewrite bool_decide_false by (intros H; by apply H).
    exists w1, units. cbn [ret]. rewrite Hnames.
    rewrite app_nil_r in Hconcat. cbn [length Z.of_nat] in Hlen.
    split_and!; try done.
    + apply ceil_div_exact; lia.
    + intros i u Hi _. by eapply Forall_lookup_1 in Hfull.
    + intros u Hu. apply last_Some in Hu as [units' ->].
      rewrite Forall_app, Forall_singleton in Hfull. lia.
  - (* a last, shorter chunk is written *)
    rewrite bool_decide_true by done.
    unfold bind at 1, open_write. cbn [ret app fs].
    exists (World (<[utils.chunk_filename input_file (utils.chunk_index s) :=
                     line :: chunk]> (fs w1)) (dirs w1) (sent w1) (clients w1)),
           (units ++ [line :: chunk]).
    cbn [fs]. rewrite length_app. cbn [length]. rewrite Nat.add_1_r.
    split_and!.
    + rewrite seqZ_S, fmap_app, Hnames, Hindex. by rewrite (Z.add_comm 1).
    + intros i u Hi. apply lookup_app_Some in Hi as [Hi|[Hge Hi]].
      * rewrite lookup_insert_ne; [by apply Hstored |].
        intros Heq%chunk_filename_inj. apply lookup_lt_Some in Hi. lia.
      * apply list_lookup_singleton_Some in Hi as [Hi <-].
        replace (1 + Z.of_nat i) with (utils.chunk_index s) by lia.
        apply lookup_insert_eq.
    + rewrite Nat2Z.inj_succ, <- Z.add_1_r.
      apply (ceil_div_partial _ _ (Z.of_nat (length (line :: chunk))));
        cbn [length] in *; lia.
    + by rewrite concat_app, <- Hconcat; cbn; rewrite app_nil_r.
    + intros i u Hi Hlt. apply lookup_app_Some in Hi as [Hi|[Hge Hi]].
      * by eapply Forall_lookup_1 in Hfull.
      * apply list_lookup_singleton_Some in Hi as [Hi _]. lia.
    + intros u Hu. rewrite last_snoc in Hu. injection Hu as <-.
      cbn [length] in *. lia.
Qed.

(** The run of C2 at 25 records and chunk size 10: three chunks of sizes
    10, 10 and 5. *)
Lemma split_jsonl_file_chunks_witness :
  ∃ (w' : world) (units : list (list string)),
    utils.split_jsonl_file "in.jsonl" 10
        (World {[ "in.jsonl" := replicate 25 "{}" ]} ∅ 0 0)
      = (Ret (utils.chunk_filename "in.jsonl" <$> seqZ 1 (Z.of_nat (length units))),
         w', []) ∧
    (∀ (i : nat) u, units !! i = Some u →
       fs w' !! utils.chunk_filename "in.jsonl" (1 + Z.of_nat i) = Some u) ∧
    Z.of_nat (length units) = (Z.of_nat (length (replicate 25 "{}")) + 10 - 1) / 10 ∧
    concat units = replicate 25 "{}" ∧
    (∀ (i : nat) u, units !! i = Some u → (S i < length units)%nat →
       Z.of_nat (length u) = 10) ∧
    (∀ u, last units = Some u → 1 ≤ Z.of_nat (length u) ≤ 10).
Proof.
  apply (split_jsonl_file_chunks "in.jsonl" 10
           (World {[ "in.jsonl" := replicate 25 "{}" ]} ∅ 0 0) (replicate 25 "{}")).
  - vm_compute. reflexivity.
  - lia.
Defined.

(** C10. Reading a non-empty input with chunk size 0 raises
    [ZeroDivisionError] at the first line, the modulo being unguarded; with a
    positive chunk size the modulo is defined at every line number and the
    function returns its list of chunk files. *)
Theorem split_jsonl_file_chunk_size (input_file : string) (k : Z) (w : world)
    (records : list string) :
  fs w !! input_file = Some records →
  (k = 0 → records ≠ [] →
     utils.split_jsonl_file input_file k w = (Raise ZeroDivisionError, w, [])) ∧
  (0 < k →
     (∀ line_number, utils.py_mod line_number k = ret (line_number mod k)) ∧
     ∃ chunk_files w',
       utils.split_jsonl_file input_file k w = (Ret chunk_files, w', [])).
Proof.
  intros Hread. split.
  - intros -> Hne. destruct records as [|line rest]; [done |].
    unfold utils.split_jsonl_file, bind at 1, open_read. rewrite Hread.
    reflexivity.
  - intros Hk. split.
    + intros line_number. unfold utils.py_mod.
      destruct (Z.eqb_spec k 0); [lia | done].
    + destruct (split_loop_spec input_file k Hk records [] _ w []
                  (split_inv_init _ _ _ Hk)) as (s & w1 & units & Hrun & _).
      change (Z.of_nat (length (@nil string)) + 1) with 1 in Hrun.
      unfold utils.split_jsonl_file, bind at 1, open_read. rewrite Hread.
      unfold bind at 1. rewrite Hrun. cbn [app].
      destruct (bool_decide (utils.chunk s ≠ [])); by eexists _, _.
Qed.

(** The run of C10 at a one-line input and chunk size 0. *)
Lemma split_jsonl_file_chunk_size_witness :
  let w := World {[ "in.jsonl" := ["{}"] ]} ∅ 0 0 in
  utils.split_jsonl_file "in.jsonl" 0 w = (Raise ZeroDivisionError, w, []).
Proof.
  intros w.
  destruct (split_jsonl_file_chunk_size "in.jsonl" 0 w ["{}"]) as [Hzero _].
  - vm_compute. reflexivity.
  - apply Hzero; [reflexivity | discriminate].
Defined.

(** ** Runs of the monad *)

Lemma prepend_nil {A} (x : result A * world * list event) : prepend [] x = x.
Proof. by destruct x as [[r w] e]. Qed.

Lemma prepend_prepend {A} (es1 es2 : list event) (x : result A * world * list event) :
  prepend es1 (prepend es2 x) = prepend (es1 ++ es2) x.
Proof. destruct x as [[r w] e]. unfold prepend. cbn. by rewrite app_assoc. Qed.

Lemma outcome_prepend {A} es (x : result A * world * list event) :
  outcome (prepend es x) = outcome x.
Proof. done. Qed.

Lemma final_prepend {A} es (x : result A * world * list event) :
  final (prepend es x) = final x.
Proof. done. Qed.

Lemma events_prepend {A} es (x : result A * world * list event) :
  events (prepend es x) = es ++ events x.
Proof. done. Qed.

Lemma bind_Ret {A B} (m : M A) (f : A → M B) w a w1 e1 :
  m w = (Ret a, w1, e1) → bind m f w = prepend e1 (f a w1).
Proof. intros H. unfold bind, prepend. rewrite H. by destruct (f a w1) as [[r w2] e2]. Qed.

Lemma bind_Raise {A B} (m : M A) (f : A → M B) w e w1 e1 :
  m w = (Raise e, w1, e1) → bind m f w = (Raise e, w1, e1).
Proof. intros H. unfold bind. by rewrite H. Qed.


Lemma try_except_Ret {A} (m : M A) h w a w1 e1 :
  m w = (Ret a, w1, e1) → try_except m h w = (Ret a, w1, e1).
Proof. intros H. unfold try_except. by rewrite H. Qed.

Lemma try_except_Raise {A} (m : M A) h w e w1 e1 :
  m w = (Raise e, w1, e1) → try_except m h w = prepend e1 (h e w1).
Proof.
  intros H. unfold try_except, prepend. rewrite H.
  by destruct (h e w1) as [[r w2] e2].
Qed.

Lemma try_except_OutOfFuel {A} (m : M A) h w w1 e1 :
  m w = (OutOfFuel, w1, e1) → try_except m h w = (OutOfFuel, w1, e1).
Proof. intros H. unfold try_except. by rewrite H. Qed.

Section keeps.

Context (R : relation world) `{!PreOrder R} (P : event → Prop).

Lemma keeps_ret {A} (a : A) : keeps R P (ret a).
Proof. intros w. split; [reflexivity | constructor]. Qed.

Lemma keeps_raise {A} (e : exn) : keeps R P (@raise A e).
Proof. intros w. split; [reflexivity | constructor]. Qed.

Lemma keeps_out_of_fuel {A} : keeps R P (@out_of_fuel A).
Proof. intros w. split; [reflexivity | constructor]. Qed.

Lemma keeps_emit (e : event) : P e → keeps R P (emit e).
Proof. intros He w. split; [reflexivity | by repeat constructor]. Qed.

Lemma keeps_log lvl msg : P (EvLog lvl msg) → keeps R P (log lvl msg).
Proof. apply keeps_emit. Qed.

Lemma keeps_bind {A B} (m : M A) (f : A → M B) :
  keeps R P m → (∀ a, keeps R P (f a)) → keeps R P (bind m f).
Proof.
  intros Hm Hf w. destruct (Hm w) as [HR HP]. unfold bind.
  destruct (m w) as [[[a|e|] w1] e1]; cbn in HR, HP; try done.
  destruct (Hf a w1) as [HR' HP'].
  destruct (f a w1) as [[r w2] e2]; cbn in *. split.
  - by etrans.
  - by apply Forall_app.
Qed.

Lemma keeps_try_except {A} (m : M A) (h : exn → M A) :
  keeps R P m → (∀ e, keeps R P (h e)) → keeps R P (try_except m h).
Proof.
  intros Hm Hh w. destruct (Hm w) as [HR HP]. unfold try_except.
  destruct (m w) as [[[a|e|] w1] e1]; cbn in HR, HP; try done.
  destruct (Hh e w1) as [HR' HP'].
  destruct (h e w1) as [[r w2] e2]; cbn in *. split.
  - by etrans.
  - by apply Forall_app.
Qed.

Lemma keeps_try_finally {A} (m : M A) (fin : M unit) :
  keeps R P m → keeps R P fin → keeps R P (try_finally m fin).
Proof.
  intros Hm Hfin w. destruct (Hm w) as [HR HP]. unfold try_finally.
  destruct (m w) as [[r w1] e1]; cbn in HR, HP.
  destruct (Hfin w1) as [HR' HP'].
  destruct r as [a|e|]; try done;
    destruct (fin w1) as [[[[]|e'|] w2] e2]; cbn in *;
    (split; [by etrans | by apply Forall_app]).
Qed.

Lemma keeps_retry_from {A} mul mn mx (body : M A) a left :
  keeps R P body → (∀ n, P (EvWait mul mn mx n)) →
  keeps R P (retry_from mul mn mx body a left).
Proof.
  intros Hbody Hwait. revert a. induction left as [|left IH]; intros a; cbn.
  - apply keeps_try_except; [done |]. intros e.
    destruct (is_RequestError e); apply keeps_raise.
  - apply keeps_try_except; [done |]. intros e.
    destruct (is_RequestError e); [| apply keeps_raise].
    apply keeps_bind; [by apply keeps_emit | intros _; apply IH].
Qed.

Lemma keeps_retry {A} n mul mn mx (body : M A) :
  keeps R P body → (∀ n, P (EvWait mul mn mx n)) →
  keeps R P (retry n mul mn mx body).
Proof. apply keeps_retry_from. Qed.

End keeps.

(** ** The retry decorator *)

Section retry.

Context {A : Type} (multiplier wmin wmax : Z) (body : M A).

Lemma retry_from_transient a n w w1 es left :
  transient_attempts multiplier wmin wmax body a n w w1 es →
  retry_from multiplier wmin wmax body a (n + left) w
  = prepend es (retry_from multiplier wmin wmax body (a + n) left w1).
Proof.
  induction 1 as [a w|a n w w1 e1 w2 es Hbody _ IH].
  - by rewrite Nat.add_0_r, prepend_nil.
  - cbn [Nat.add retry_from].
    rewrite (try_except_Raise _ _ _ _ _ _ Hbody). cbn [is_RequestError].
    unfold bind at 1, emit. rewrite IH.
    rewrite <- Nat.add_succ_comm.
    destruct (retry_from _ _ _ _ _ _ _) as [[r w3] e3].
    unfold prepend. cbn. by rewrite <- app_assoc.
Qed.

(** The attempt that ends the loop: it is the last of the budget, or it does
    not raise [RequestError]. *)
Lemma retry_from_last a left w r w1 e1 :
  body w = (r, w1, e1) →
  (r = Raise RequestError → left = 0%nat) →
  retry_from multiplier wmin wmax body a left w = (r, w1, e1).
Proof.
  intros Hbody Hlast.
  destruct r as [v|e|].
  - destruct left; cbn; by rewrite (try_except_Ret _ _ _ _ _ _ Hbody).
  - destruct left as [|left]; cbn [retry_from];
      rewrite (try_except_Raise _ _ _ _ _ _ Hbody);
      destruct e; cbn [is_RequestError];
      try (unfold prepend, raise; cbn; by rewrite app_nil_r).
    by specialize (Hlast eq_refl).
  - destruct left; cbn; by rewrite (try_except_OutOfFuel _ _ _ _ _ Hbody).
Qed.

Lemma retry_spec (budget : nat) k w w1 es r w2 e :
  transient_attempts multiplier wmin wmax body 1 k w w1 es →
  (k < budget)%nat →
  body w1 = (r, w2, e) →
  (r = Raise RequestError → S k = budget) →
  retry budget multiplier wmin wmax body w = (r, w2, es ++ e).
Proof.
  intros Hk Hlt Hbody Hlast. unfold retry.
  replace (budget - 1)%nat with (k + (budget - 1 - k))%nat by lia.
  rewrite (retry_from_transient _ _ _ _ _ _ Hk).
  rewrite (retry_from_last _ _ _ _ _ _ Hbody); [done |].
  intros Hr. specialize (Hlast Hr). lia.
Qed.

(** Every run of the decorated function has that shape. *)
Lemma retry_from_shape a left w :
  ∃ k w1 es r w2 e,
    transient_attempts multiplier wmin wmax body a k w w1 es ∧ (k ≤ left)%nat ∧
    body w1 = (r, w2, e) ∧ (r = Raise RequestError → k = left) ∧
    retry_from multiplier wmin wmax body a left w = (r, w2, es ++ e).
Proof.
  revert a w. induction left as [|left IH]; intros a w.
  - destruct (body w) as [[r w1] e1] eqn:Hbody.
    exists 0%nat, w, [], r, w1, e1. split_and!; try done; [constructor |].
    by apply retry_from_last.
  - destruct (body w) as [[r w1] e1] eqn:Hbody.
    assert (r = Raise RequestError ∨ r ≠ Raise RequestError) as [->|Hr]
      by (destruct r as [v|[]|]; (by left) || (by right)).
    + destruct (IH (S a) w1) as (k & w2 & es & r & w3 & e & Hk & Hle & Hlast & Hr & Hrun).
      exists (S k), w2, (e1 ++ EvWait multiplier wmin wmax a :: es), r, w3, e.
      split_and!; try done.
      * by econstructor.
      * lia.
      * intros Hr'. by rewrite (Hr Hr').
      * cbn [retry_from]. rewrite (try_except_Raise _ _ _ _ _ _ Hbody).
        cbn [is_RequestError]. unfold bind at 1, emit. rewrite Hrun.
        unfold prepend. cbn. by rewrite <- app_assoc.
    + exists 0%nat, w, [], r, w1, e1. split_and!; try done; [constructor | lia |].
      by apply retry_from_last.
Qed.

End retry.

(** C3. The retry decorator runs its function again only after it raised
    [httpx.RequestError]: every run is a row of transient failures, each
    followed by a wait, and one last attempt whose result is the result of
    the run.  Two transient failures and a success make three attempts and
    return the success; any other exception ends the run at the attempt that
    raised it, so at the first when it is raised there, and the
    [HTTPStatusError] that [raise_for_status] raises for a response outside
    2xx is such an exception; when all attempts of the budget fail
    transiently the last [RequestError] is re-raised as it is.  The budget is
    5 for upload, submit and poll and 3 for fetch. *)
Theorem retry_policy {A} (budget : nat) (multiplier wmin wmax : Z)
    (body : M A) (w : world) :
  (1 ≤ budget)%nat →
  let run := retry budget multiplier wmin wmax body w in
  (∃ k w1 es r w2 e,
     transient_attempts multiplier wmin wmax body 1 k w w1 es ∧
     (k < budget)%nat ∧
     body w1 = (r, w2, e) ∧
     (r = Raise RequestError → S k = budget) ∧
     run = (r, w2, es ++ e)) ∧
  (∀ w1 e1 w2 e2 v w3 e3,
     (3 ≤ budget)%nat →
     body w = (Raise RequestError, w1, e1) →
     body w1 = (Raise RequestError, w2, e2) →
     body w2 = (Ret v, w3, e3) →
     run = (Ret v, w3,
            e1 ++ EvWait multiplier wmin wmax 1 ::
            e2 ++ EvWait multiplier wmin wmax 2 :: e3)) ∧
  (∀ e w1 e1,
     body w = (Raise e, w1, e1) →
     is_RequestError e = false →
     run = (Raise e, w1, e1)) ∧
  (∀ r, is_success r = false →
     raise_for_status r = raise (HTTPStatusError (status_code r)) ∧
     is_RequestError (HTTPStatusError (status_code r)) = false) ∧
  (∀ w1 es w2 e,
     transient_attempts multiplier wmin wmax body 1 (budget - 1) w w1 es →
     body w1 = (Raise RequestError, w2, e) →
     run = (Raise RequestError, w2, es ++ e)) ∧
  (∀ E self file_path,
     batch_manager.upload_file E self file_path
     = retry 5 1 4 10 (batch_manager.upload_file_body E self file_path)) ∧
  (∀ E self input_file_id metadata,
     batch_manager.create_batch E self input_file_id metadata
     = retry 5 1 4 10 (batch_manager.create_batch_body E self input_file_id metadata)) ∧
  (∀ E self batch_id,
     batch_manager.get_batch_status E self batch_id
     = retry 5 1 4 10 (batch_manager.get_batch_status_body E self batch_id)) ∧
  (∀ E self batch_id output_file,
     batch_manager.download_batch_results E self batch_id output_file
     = retry 3 1 2 5
         (batch_manager.download_batch_results_body E self batch_id output_file)).
Proof.
  intros Hbudget run. subst run. split_and!; try done.
  - unfold retry.
    destruct (retry_from_shape multiplier wmin wmax body 1 (budget - 1) w)
      as (k & w1 & es & r & w2 & e & Hk & Hle & Hbody & Hlast & Hrun).
    exists k, w1, es, r, w2, e. split_and!; try done; [lia |].
    intros Hr. specialize (Hlast Hr). lia.
  - intros w1 e1 w2 e2 v w3 e3 H3 H1 H2 Hv.
    rewrite (retry_spec multiplier wmin wmax body budget 2 w w2
               (e1 ++ EvWait multiplier wmin wmax 1 ::
                e2 ++ [EvWait multiplier wmin wmax 2]) (Ret v) w3 e3);
      try done.
    + rewrite <- app_assoc. cbn [app]. by rewrite <- app_assoc.
    + econstructor; [done |]. rewrite <- (app_nil_r (_ ++ [_])), <- app_assoc.
      econstructor; [done | constructor].
  - intros e w1 e1 Hbody He.
    rewrite (retry_spec multiplier wmin wmax body budget 0 w w [] (Raise e) w1 e1);
      try done; [constructor |].
    intros [= ->]. done.
  - intros r Hr. unfold raise_for_status. by rewrite Hr.
  - intros w1 es w2 e Hk Hbody.
    apply (retry_spec multiplier wmin wmax body budget (budget - 1) w w1 es);
      try done; lia.
Qed.

(** Submit against a remote that fails in transport twice and then accepts:
    the batch id comes back after three requests. *)
Lemma retry_policy_witness :
  let E := Env batch_manager.module_globals
             (scripted [NetFail; NetFail; ok_json [("id", JStr "batch_1")]]) in
  let self := batch_manager.Build_BatchManager "key" "/v1/completions" "24h" "out" 0 in
  let run := batch_manager.create_batch E self (JStr "file_1") None (World ∅ ∅ 0 1) in
  outcome run = Ret (JStr "batch_1") ∧ http_requests (events run) = 3%nat.
Proof.
  intros E self run.
  destruct (retry_policy 5 1 4 10
              (batch_manager.create_batch_body E self (JStr "file_1") None)
              (World ∅ ∅ 0 1)) as (_ & Htwice & _); [lia |].
  subst run. unfold batch_manager.create_batch.
  erewrite Htwice; [| lia | vm_compute; reflexivity ..].
  split; vm_compute; reflexivity.
Defined.

(** A rejection by status code is not retried: one request. *)
Example create_batch_rejected :
  let E := Env batch_manager.module_globals
             (scripted [Resp (Response 401 None []); ok_json [("id", JStr "batch_1")]]) in
  let self := batch_manager.Build_BatchManager "key" "/v1/completions" "24h" "out" 0 in
  let run := batch_manager.create_batch E self (JStr "file_1") None (World ∅ ∅ 0 1) in
  outcome run = Raise (HTTPStatusError 401) ∧ http_requests (events run) = 1%nat.
Proof. vm_compute. done. Qed.

(** A remote that is down: five requests for a status, three attempts of five
    for a download. *)
Example budgets_exhausted :
  let E := Env batch_manager.module_globals (scripted []) in
  let self := batch_manager.Build_BatchManager "key" "/v1/completions" "24h" "out" 0 in
  let poll := batch_manager.get_batch_status E self (JStr "batch_1") (World ∅ ∅ 0 1) in
  let fetch := batch_manager.download_batch_results E self (JStr "batch_1")
                 "out/results_batch_1.jsonl" (World ∅ ∅ 0 1) in
  (outcome poll = Raise RequestError ∧ http_requests (events poll) = 5%nat) ∧
  (outcome fetch = Raise RequestError ∧ http_requests (events fetch) = 15%nat).
Proof. vm_compute. done. Qed.

(** ** Upload *)

Lemma sent_iter_bump (k : nat) (w : world) :
  sent (Nat.iter k bump w) = (sent w + k)%nat ∧ fs (Nat.iter k bump w) = fs w.
Proof.
  induction k as [|k [IH1 IH2]]; simpl; [split; [lia | done] |].
  rewrite IH1. split; [lia | done].
Qed.

Section upload.

Context (E : env) (self : batch_manager.BatchManager) (file_path : string)
  (c : list string).

Lemma upload_unbound w :
  fs w !! file_path = Some c → "os" ∉ globals E →
  batch_manager.upload_file_body E self file_path w
  = (Raise (NameError "os"), w, [EvLog INFO (MsgUploading file_path)]).
Proof.
  intros Hc Hos. unfold batch_manager.upload_file_body, bind, log, emit, open_read.
  rewrite Hc. unfold os_path_basename, lookup_global, bind.
  by rewrite bool_decide_false.
Qed.



End upload.





(** ** Invariants of the primitives and of the client operations *)

Section keeps_primitives.

Context (R : relation world) `{!PreOrder R} (P : event → Prop).

Lemma keeps_open_read path : keeps R P (open_read path).
Proof.
  intros w. unfold open_read.
  destruct (fs w !! path); (split; [reflexivity | constructor]).
Qed.

Lemma keeps_os_path_exists path : keeps R P (os_path_exists path).
Proof. intros w. split; [reflexivity | constructor]. Qed.

Lemma keeps_open_write path c :
  (∀ w, R w (World (<[path := c]> (fs w)) (dirs w) (sent w) (clients w))) →
  keeps R P (open_write path c).
Proof. intros HR w. split; [apply HR | constructor]. Qed.

Lemma keeps_os_makedirs path :
  (∀ w, R w (World (fs w) ({[path]} ∪ dirs w) (sent w) (clients w))) →
  keeps R P (os_makedirs path).
Proof. intros HR w. split; [apply HR | constructor]. Qed.

Lemma keeps_client_send E c rq :
  (∀ w, R w (bump w)) → P (EvHttp c rq) → keeps R P (client_send E c rq).
Proof.
  intros HR HP w. unfold client_send.
  destruct (remote E (sent w) rq); (split; [apply HR | by repeat constructor]).
Qed.

End keeps_primitives.

(** One step of a proof of [keeps]: the lemma of the head of the computation,
    or a case analysis on what it branches on. *)
Ltac keeps_head :=
  lazymatch goal with
  | |- ∀ _, _ => intros ?
  | |- keeps _ _ (ret _) => apply keeps_ret
  | |- keeps _ _ (raise _) => apply keeps_raise
  | |- keeps _ _ out_of_fuel => apply keeps_out_of_fuel
  | |- keeps _ _ (bind _ _) => apply keeps_bind
  | |- keeps _ _ (try_except _ _) => apply keeps_try_except
  | |- keeps _ _ (try_finally _ _) => apply keeps_try_finally
  | |- keeps _ _ (log _ _) => apply keeps_log
  | |- keeps _ _ (emit _) => apply keeps_emit
  | |- keeps _ _ (retry _ _ _ _ _) => apply keeps_retry
  | |- keeps _ _ (client_send _ _ _) => apply keeps_client_send
  | |- keeps _ _ (open_read _) => apply keeps_open_read
  | |- keeps _ _ (open_write _ _) => apply keeps_open_write
  | |- keeps _ _ (os_path_exists _) => apply keeps_os_path_exists
  | |- keeps _ _ (os_makedirs _) => apply keeps_os_makedirs
  | |- keeps _ _ (match ?x with _ => _ end) => destruct x
  end.

Ltac keeps_step :=
  keeps_head; try lazymatch goal with |- PreOrder _ => apply _ end.

Ltac keeps_unfold :=
  progress unfold batch_manager.upload_file, batch_manager.upload_file_body,
    batch_manager.create_batch, batch_manager.create_batch_body,
    batch_manager.get_batch_status, batch_manager.get_batch_status_body,
    batch_manager.download_batch_results, batch_manager.download_batch_results_body,
    os_path_basename, lookup_global, raise_for_status, response_json,
    py_subscript, py_get, utils.ensure_directory, utils.py_mod.

Ltac keeps_auto := repeat (first [keeps_step | keeps_unfold]; try done).

Global Instance any_world_preorder : PreOrder any_world.
Proof. by split. Qed.

Global Instance fs_grows_preorder : PreOrder fs_grows.
Proof. split; [by intros w path | intros w1 w2 w3 H12 H23 path H; auto]. Qed.

Lemma fs_grows_write path c w :
  fs_grows w (World (<[path := c]> (fs w)) (dirs w) (sent w) (clients w)).
Proof.
  intros q Hq. cbn. destruct (decide (path = q)) as [->|Hne].
  - rewrite lookup_insert_eq. by eexists.
  - by rewrite lookup_insert_ne.
Qed.

Lemma downloads_app es1 es2 : downloads (es1 ++ es2) = downloads es1 ++ downloads es2.
Proof.
  induction es1 as [|e es1 IH]; [done |].
  destruct e as [lvl []| | | | | | |]; cbn; by rewrite ?IH.
Qed.

Lemma downloads_none es :
  Forall (λ e, is_download_event e = false) es → downloads es = [].
Proof.
  induction 1 as [|e es He _ IH]; [done |].
  by destruct e as [lvl []| | | | | | |].
Qed.

Lemma downloads_all b out es :
  Forall (λ e, is_download_event e = true → e = EvLog INFO (MsgDownloading b out)) es →
  Forall (λ d, d = (b, out)) (downloads es).
Proof.
  induction 1 as [|e es He _ IH]; [constructor |].
  destruct e as [lvl []| | | | | | |]; cbn; auto.
  specialize (He eq_refl). injection He as -> -> ->. constructor; auto.
Qed.

Section operations.

Context (E : env) (self : batch_manager.BatchManager).

Lemma upload_file_no_submit_no_poll file_path :
  keeps any_world (λ e, is_submit_event e = false ∧ is_poll_event e = false)
    (batch_manager.upload_file E self file_path).
Proof. keeps_auto. Qed.

Lemma create_batch_no_poll input_file_id metadata :
  keeps any_world (λ e, is_poll_event e = false)
    (batch_manager.create_batch E self input_file_id metadata).
Proof. keeps_auto. Qed.

Lemma get_batch_status_no_download batch_id :
  keeps any_world (λ e, is_download_event e = false)
    (batch_manager.get_batch_status E self batch_id).
Proof. keeps_auto. Qed.

Lemma download_batch_results_downloads batch_id output_file :
  keeps any_world
    (λ e, is_download_event e = true → e = EvLog INFO (MsgDownloading batch_id output_file))
    (batch_manager.download_batch_results E self batch_id output_file).
Proof. keeps_auto. Qed.

Lemma bind_emit {A} (e : event) (f : unit → M A) w :
  bind (emit e) f w = prepend [e] (f tt w).
Proof. unfold bind, emit, prepend. by destruct (f tt w) as [[r w1] e1]. Qed.

Lemma download_batch_results_starts batch_id output_file w :
  ∃ es,
    events (batch_manager.download_batch_results E self batch_id output_file w)
    = EvLog INFO (MsgDownloading batch_id output_file) :: es.
Proof.
  unfold batch_manager.download_batch_results, retry. cbn [Nat.sub retry_from].
  unfold try_except at 1. unfold batch_manager.download_batch_results_body at 1.
  unfold log. rewrite bind_emit.
  destruct (bind _ _ w) as [[[v|e|] w1] e1]; cbn; [by eexists | | by eexists].
  destruct (if is_RequestError e then _ else _) as [[r w2] e2]. by eexists.
Qed.

End operations.

(** ** The polling loop *)

Lemma terminal_values (status : jval) :
  batch_manager.terminal status = true ↔
  status = JStr "succeeded" ∨ status = JStr "failed" ∨ status = JStr "cancelled".
Proof.
  unfold batch_manager.terminal, eq_str. split.
  - destruct status as [s| | |]; try done.
    rewrite !orb_true_iff, !String.eqb_eq. intros [[->| ->]| ->]; auto.
  - by intros [->|[->| ->]].
Qed.

Section polling.

Context (E : env) (self : batch_manager.BatchManager) (batch_id : jval).

(** One iteration of the loop, on the snapshot its poll returns. *)
Lemma poll_loop_step fuel n w fields w1 e1 :
  batch_manager.get_batch_status E self batch_id w = (Ret (JObj fields), w1, e1) →
  batch_manager.poll_loop E self batch_id (S fuel) n w
  = let status := dict_get fields "status" in
    if eq_str status "succeeded" then
      (Ret status, w1, e1 ++ [EvProgress (100 - n)])
    else if eq_str status "failed" || eq_str status "cancelled" then
      (Raise (RuntimeError (batch_manager.ended_with batch_id status)), w1,
       e1 ++ [EvProgressWrite batch_id status])
    else
      prepend (e1 ++ [EvProgress 10; EvSleep 30])
        (batch_manager.poll_loop E self batch_id fuel (n + 10) w1).
Proof.
  intros Hpoll. cbn [batch_manager.poll_loop].
  rewrite (bind_Ret _ _ _ _ _ _ Hpoll). cbn [py_get].
  unfold bind at 1. cbn [ret]. cbv zeta.
  destruct (eq_str (dict_get fields "status") "succeeded"); [done |].
  destruct (eq_str (dict_get fields "status") "failed"
            || eq_str (dict_get fields "status") "cancelled"); [done |].
  rewrite !bind_emit, !prepend_prepend.
  unfold prepend. cbn. by rewrite <- !app_assoc.
Qed.

Lemma poll_loop_pending k w wk es fuel n :
  pending_polls E self batch_id k w wk es →
  batch_manager.poll_loop E self batch_id (k + fuel) n w
  = prepend es (batch_manager.poll_loop E self batch_id fuel (n + 10 * Z.of_nat k) wk).
Proof.
  intros Hk. revert n.
  induction Hk as [w|k w fields w1 e1 w2 es Hpoll Hstatus _ IH]; intros n.
  - by rewrite prepend_nil, Z.mul_0_r, Z.add_0_r.
  - cbn [Nat.add]. rewrite (poll_loop_step _ _ _ _ _ _ Hpoll). cbv zeta.
    unfold batch_manager.terminal in Hstatus.
    apply orb_false_iff in Hstatus as [Hstatus Hc].
    apply orb_false_iff in Hstatus as [-> Hf]. rewrite Hf, Hc. cbn [orb].
    rewrite IH, prepend_prepend.
    replace (n + 10 + 10 * Z.of_nat k) with (n + 10 * Z.of_nat (S k)) by lia.
    by rewrite <- app_assoc.
Qed.

Lemma poll_loop_terminal k w wk es fields w1 e1 fuel n :
  pending_polls E self batch_id k w wk es →
  batch_manager.get_batch_status E self batch_id wk = (Ret (JObj fields), w1, e1) →
  batch_manager.terminal (dict_get fields "status") = true →
  (k < fuel)%nat →
  batch_manager.poll_loop E self batch_id fuel n w
  = let status := dict_get fields "status" in
    if eq_str status "succeeded" then
      (Ret status, w1, es ++ e1 ++ [EvProgress (100 - (n + 10 * Z.of_nat k))])
    else
      (Raise (RuntimeError (batch_manager.ended_with batch_id status)), w1,
       es ++ e1 ++ [EvProgressWrite batch_id status]).
Proof.
  intros Hk Hpoll Hterminal Hfuel.
  replace fuel with (k + S (fuel - S k))%nat by lia.
  rewrite (poll_loop_pending _ _ _ _ _ _ Hk), (poll_loop_step _ _ _ _ _ _ Hpoll).
  cbv zeta. unfold batch_manager.terminal in Hterminal.
  destruct (eq_str (dict_get fields "status") "succeeded"); [done |].
  cbn [orb] in Hterminal. by rewrite Hterminal.
Qed.

Lemma pending_polls_no_download k w wk es :
  pending_polls E self batch_id k w wk es → downloads es = [].
Proof.
  induction 1 as [w|k w fields w1 e1 w2 es Hpoll _ _ IH]; [done |].
  rewrite downloads_app. cbn. rewrite IH, app_nil_r.
  apply downloads_none.
  destruct (get_batch_status_no_download E self batch_id w) as [_ Hev].
  by rewrite Hpoll in Hev.
Qed.

End polling.

(** C4. When the polls of a batch return a status that is not terminal [k]
    times and the next poll returns a terminal one, the loop ends at that
    poll, in the world that poll leaves.  On ['succeeded'] the download
    starts there, to [{output_dir}/results_{batch_id}.jsonl]; on ['failed']
    and ['cancelled'] a [RuntimeError] is raised and nothing else happens.
    So a download starts if and only if the terminal status is
    ['succeeded'], and every download of the run is that one. *)
Theorem polling_stops_and_downloads (E : env) (self : batch_manager.BatchManager)
    (batch_id : jval) (fuel k : nat) (w wk : world) (es : list event)
    (fields : list (string * jval)) (w1 : world) (e1 : list event) :
  pending_polls E self batch_id k w wk es →
  batch_manager.get_batch_status E self batch_id wk = (Ret (JObj fields), w1, e1) →
  batch_manager.terminal (dict_get fields "status") = true →
  (k < fuel)%nat →
  let status := dict_get fields "status" in
  let run := batch_manager.poll_and_download E self fuel batch_id w in
  (eq_str status "succeeded" = true →
     batch_manager.poll_loop E self batch_id fuel 0 w
     = (Ret status, w1, es ++ e1 ++ [EvProgress (100 - 10 * Z.of_nat k)]) ∧
     run = prepend (es ++ e1 ++ [EvProgress (100 - 10 * Z.of_nat k)])
             (batch_manager.download_batch_results E self batch_id
                (batch_manager.results_file self batch_id) w1)) ∧
  (eq_str status "succeeded" = false →
     run = (Raise (RuntimeError (batch_manager.ended_with batch_id status)), w1,
            es ++ e1 ++ [EvProgressWrite batch_id status])) ∧
  (downloads (events run) ≠ [] ↔ eq_str status "succeeded" = true) ∧
  Forall (λ d, d = (batch_id, batch_manager.results_file self batch_id))
    (downloads (events run)).
Proof.
  intros Hk Hpoll Hterminal Hfuel status run.
  pose proof (poll_loop_terminal E self batch_id k w wk es fields w1 e1 fuel 0
                Hk Hpoll Hterminal Hfuel) as Hloop.
  cbv zeta in Hloop. fold status in Hloop. rewrite Z.add_0_l in Hloop.
  assert (Hquiet : ∀ ev, is_download_event ev = false →
                       downloads (es ++ e1 ++ [ev]) = []).
  { intros ev Hev.
    rewrite !downloads_app, (pending_polls_no_download _ _ _ _ _ _ _ Hk).
    rewrite (downloads_none [ev]) by (by constructor).
    rewrite app_nil_r. apply downloads_none.
    destruct (get_batch_status_no_download E self batch_id wk) as [_ Hquiet].
    by rewrite Hpoll in Hquiet. }
  subst run. unfold batch_manager.poll_and_download.
  destruct (eq_str status "succeeded") eqn:Hs.
  - rewrite (bind_Ret _ _ _ _ _ _ Hloop), Hs.
    destruct (download_batch_results_starts E self batch_id
                (batch_manager.results_file self batch_id) w1) as [es' Hstart].
    destruct (download_batch_results_downloads E self batch_id
                (batch_manager.results_file self batch_id) w1) as [_ Hall].
    rewrite events_prepend, downloads_app, Hquiet by done. cbn [app].
    split_and!; try done.
    + split; [done |]. intros _. by rewrite Hstart.
    + by apply downloads_all.
  - rewrite (bind_Raise _ _ _ _ _ _ Hloop).
    unfold events. cbn [snd]. rewrite Hquiet by done.
    split_and!; done.
Qed.

(** C4 on a batch that is in progress at the first poll and failed at the
    second: the run ends there with a [RuntimeError] and starts no
    download. *)
Lemma polling_stops_and_downloads_witness :
  let E := Env batch_manager.module_globals
             (scripted [ok_json [("status", JStr "in_progress")];
                        ok_json [("status", JStr "failed")];
                        ok_json [("status", JStr "succeeded")]]) in
  let self := batch_manager.Build_BatchManager "key" "/v1/completions" "24h" "out" 0 in
  let run := batch_manager.poll_and_download E self 5 (JStr "batch_1") (World ∅ ∅ 0 1) in
  outcome run = Raise (RuntimeError "Batch batch_1 ended with status: failed") ∧
  http_requests (events run) = 2%nat ∧
  downloads (events run) = [].
Proof.
  intros E self run.
  pose (w0 := World ∅ ∅ 0 1).
  pose (poll0 := batch_manager.get_batch_status E self (JStr "batch_1") w0).
  pose (poll1 := batch_manager.get_batch_status E self (JStr "batch_1") (final poll0)).
  destruct (polling_stops_and_downloads E self (JStr "batch_1") 5 1 w0 (final poll0)
              (events poll0 ++ EvProgress 10 :: EvSleep 30 :: [])
              [("status", JStr "failed")] (final poll1) (events poll1))
    as (_ & Hfailed & _).
  - eapply (pending_cons _ _ _ _ _ [("status", JStr "in_progress")]);
      [vm_compute; reflexivity | reflexivity | constructor].
  - vm_compute. reflexivity.
  - reflexivity.
  - lia.
  - subst run. fold w0. rewrite Hfailed by reflexivity. vm_compute. done.
Defined.

(** The same batch succeeding at the second poll: one download, to the file
    named after the batch. *)
Example poll_and_download_succeeded :
  let E := Env batch_manager.module_globals
             (scripted [ok_json [("status", JStr "in_progress")];
                        ok_json [("status", JStr "succeeded")];
                        ok_json [("status", JStr "succeeded");
                                 ("output_file_url", JStr "https://files/out")];
                        Resp (Response 200 None ["{}"])]) in
  let self := batch_manager.Build_BatchManager "key" "/v1/completions" "24h" "out" 0 in
  let run := batch_manager.poll_and_download E self 5 (JStr "batch_1") (World ∅ ∅ 0 1) in
  outcome run = Ret tt ∧
  downloads (events run) = [(JStr "batch_1", "out/results_batch_1.jsonl")] ∧
  fs (final run) !! "out/results_batch_1.jsonl" = Some ["{}"].
Proof. vm_compute. done. Qed.

(** C9. A poll that returns a snapshot ends the loop exactly when the status
    of the snapshot is one of the strings ['succeeded'], ['failed'] and
    ['cancelled']; on any other status, a missing one and ['completed']
    included, the loop sleeps 30 seconds and goes on with the next poll, and
    when no poll ever returns a terminal status the loop never ends. *)
Theorem polling_continues_unless_terminal (E : env)
    (self : batch_manager.BatchManager) (batch_id : jval) (fuel : nat) (n : Z)
    (w : world) (fields : list (string * jval)) (w1 : world) (e1 : list event) :
  batch_manager.get_batch_status E self batch_id w = (Ret (JObj fields), w1, e1) →
  let status := dict_get fields "status" in
  let run := batch_manager.poll_loop E self batch_id (S fuel) n w in
  (batch_manager.terminal status = true ↔
     status = JStr "succeeded" ∨ status = JStr "failed" ∨ status = JStr "cancelled") ∧
  (batch_manager.terminal status = true →
     final run = w1 ∧ outcome run ≠ OutOfFuel ∧ ∃ ev, events run = e1 ++ [ev]) ∧
  (batch_manager.terminal status = false →
     run = prepend (e1 ++ [EvProgress 10; EvSleep 30])
             (batch_manager.poll_loop E self batch_id fuel (n + 10) w1)) ∧
  (assoc fields "status" = None → batch_manager.terminal status = false) ∧
  (status = JStr "completed" → batch_manager.terminal status = false) ∧
  ((∀ k, ∃ wk es, pending_polls E self batch_id k w wk es) →
   ∀ fuel' n', outcome (batch_manager.poll_loop E self batch_id fuel' n' w) = OutOfFuel).
Proof.
  intros Hpoll status run. subst run.
  rewrite (poll_loop_step E self batch_id fuel n w fields w1 e1 Hpoll).
  cbv zeta. fold status. split_and!.
  - apply terminal_values.
  - unfold batch_manager.terminal. intros Hterminal.
    destruct (eq_str status "succeeded"); [split_and!; [done | done | by eexists] |].
    cbn [orb] in Hterminal. rewrite Hterminal.
    split_and!; [done | done | by eexists].
  - unfold batch_manager.terminal. intros Hpending.
    apply orb_false_iff in Hpending as [Hpending Hc].
    apply orb_false_iff in Hpending as [-> Hf]. by rewrite Hf, Hc.
  - intros Hmissing. subst status. unfold dict_get. by rewrite Hmissing.
  - by intros ->.
  - intros Hforever fuel' n'.
    destruct (Hforever fuel') as (wk & es & Hk).
    pose proof (poll_loop_pending E self batch_id fuel' w wk es 0 n' Hk) as Hrun.
    rewrite Nat.add_0_r in Hrun. by rewrite Hrun.
Qed.

(** C9 on a poll that reads ['completed']: the loop goes on, and with the one
    unit of fuel used up the run has not ended. *)
Lemma polling_continues_unless_terminal_witness :
  let E := Env batch_manager.module_globals
             (scripted [ok_json [("status", JStr "completed")]]) in
  let self := batch_manager.Build_BatchManager "key" "/v1/completions" "24h" "out" 0 in
  let run := batch_manager.poll_loop E self (JStr "batch_1") 1 0 (World ∅ ∅ 0 1) in
  outcome run = OutOfFuel ∧
  events run
  = [EvLog DEBUG (MsgChecking (JStr "batch_1"));
     EvHttp 0 (Request GET "/v1/batches/batch_1" NoBody);
     EvLog DEBUG (MsgStatus (JStr "batch_1") (JStr "completed"));
     EvProgress 10; EvSleep 30].
Proof.
  intros E self run.
  pose (w0 := World ∅ ∅ 0 1).
  pose (poll0 := batch_manager.get_batch_status E self (JStr "batch_1") w0).
  destruct (polling_continues_unless_terminal E self (JStr "batch_1") 0 0 w0
              [("status", JStr "completed")] (final poll0) (events poll0))
    as (_ & _ & Hgoes_on & _).
  - vm_compute. reflexivity.
  - subst run. fold w0. rewrite Hgoes_on by reflexivity. vm_compute. done.
Defined.

(** A remote that answers every request with the status ['completed']: the
    polling loop does not end, whatever the fuel. *)
Example polling_completed_forever (fuel : nat) :
  let E := Env batch_manager.module_globals
             (λ _ _, ok_json [("status", JStr "completed")]) in
  let self := batch_manager.Build_BatchManager "key" "/v1/completions" "24h" "out" 0 in
  outcome (batch_manager.poll_loop E self (JStr "batch_1") fuel 0 (World ∅ ∅ 0 1))
  = OutOfFuel.
Proof.
  intros E self. generalize 0 (World ∅ ∅ 0 1).
  induction fuel as [|fuel IH]; intros n w; [done |].
  rewrite (poll_loop_step E self (JStr "batch_1") fuel n w
             [("status", JStr "completed")] (bump w)
             [EvLog DEBUG (MsgChecking (JStr "batch_1"));
              EvHttp 0 (Request GET "/v1/batches/batch_1" NoBody);
              EvLog DEBUG (MsgStatus (JStr "batch_1") (JStr "completed"))]);
    [| reflexivity].
  cbn. apply IH.
Qed.

(** ** One unit of work *)

Section unit_of_work.

Context (E : env) (self : batch_manager.BatchManager) (fuel : nat).
Context (R : relation world) `{!PreOrder R} (P : event → Prop).
Hypothesis R_bump : ∀ w, R w (bump w).
Hypothesis R_write : ∀ path c w,
  R w (World (<[path := c]> (fs w)) (dirs w) (sent w) (clients w)).
Hypothesis P_uses_client : ∀ e, uses_client (batch_manager.client self) e → P e.

Ltac keeps_client := keeps_auto; try (apply P_uses_client; done).

Lemma get_batch_status_keeps batch_id :
  keeps R P (batch_manager.get_batch_status E self batch_id).
Proof. keeps_client. Qed.

Lemma poll_loop_keeps batch_id n :
  keeps R P (batch_manager.poll_loop E self batch_id fuel n).
Proof.
  revert n. induction fuel as [|fuel' IH]; intros n; cbn [batch_manager.poll_loop].
  - keeps_auto.
  - keeps_step; [apply get_batch_status_keeps | keeps_client; apply IH].
Qed.

Lemma process_batch_keeps chunk_file :
  keeps R P (batch_manager.process_batch E self fuel chunk_file).
Proof.
  unfold batch_manager.process_batch, batch_manager.poll_and_download.
  keeps_step; [| keeps_client].
  keeps_step; [keeps_client | intros file_id].
  keeps_step; [keeps_client | intros batch_id].
  keeps_step; [apply poll_loop_keeps | keeps_client].
Qed.

End unit_of_work.

Section units.

Context (E : env) (self : batch_manager.BatchManager) (fuel : nat).

(** A failed upload: [process_batch] re-raises and has not tried to submit. *)
Lemma process_batch_upload_failed chunk_file w e w1 es :
  batch_manager.upload_file E self chunk_file w = (Raise e, w1, es) →
  batch_manager.process_batch E self fuel chunk_file w
  = (Raise e, w1, es ++ [EvLog ERROR (MsgErrorProcessing chunk_file e)]).
Proof.
  intros Hupload. unfold batch_manager.process_batch.
  rewrite (try_except_Raise _ _ _ e w1 es); [done |].
  by apply bind_Raise.
Qed.

(** A failed submit: [process_batch] re-raises and has not polled. *)
Lemma process_batch_submit_failed chunk_file w file_id w1 es e w2 es' :
  batch_manager.upload_file E self chunk_file w = (Ret file_id, w1, es) →
  batch_manager.create_batch E self file_id None w1 = (Raise e, w2, es') →
  batch_manager.process_batch E self fuel chunk_file w
  = (Raise e, w2, es ++ es' ++ [EvLog ERROR (MsgErrorProcessing chunk_file e)]).
Proof.
  intros Hupload Hcreate. unfold batch_manager.process_batch.
  rewrite (try_except_Raise _ _ _ e w2 (es ++ es')).
  - unfold prepend. cbn. by rewrite <- app_assoc.
  - rewrite (bind_Ret _ _ _ _ _ _ Hupload).
    by rewrite (bind_Raise _ _ _ _ _ _ Hcreate).
Qed.

(** The loop of [process_batches] after a unit that failed, and after one that
    succeeded. *)
Lemma process_loop_failed chunk_file rest failed processed w e w1 es :
  batch_manager.process_batch E self fuel chunk_file w = (Raise e, w1, es) →
  batch_manager.process_loop E self fuel (chunk_file :: rest) failed processed w
  = prepend (es ++ [EvLog ERROR (MsgFailedToProcess chunk_file e)])
      (batch_manager.process_loop E self fuel rest (failed ++ [chunk_file]) processed w1).
Proof.
  intros Hunit. cbn [batch_manager.process_loop].
  rewrite (bind_Ret _ _ _ (failed ++ [chunk_file], processed) w1
             (es ++ [EvLog ERROR (MsgFailedToProcess chunk_file e)])); [done |].
  by rewrite (try_except_Raise _ _ _ e w1 es) by (by apply bind_Raise).
Qed.

Lemma process_loop_succeeded chunk_file rest failed processed w w1 es :
  batch_manager.process_batch E self fuel chunk_file w = (Ret tt, w1, es) →
  batch_manager.process_loop E self fuel (chunk_file :: rest) failed processed w
  = prepend es
      (batch_manager.process_loop E self fuel rest failed (processed ++ [chunk_file]) w1).
Proof.
  intros Hunit. cbn [batch_manager.process_loop].
  rewrite (bind_Ret _ _ _ (failed, processed ++ [chunk_file]) w1 es); [done |].
  apply try_except_Ret.
  rewrite (bind_Ret _ _ _ _ _ _ Hunit). unfold prepend. cbn. by rewrite app_nil_r.
Qed.


End units.

(** In the module as it is written, where [os] is not among the names bound,
    every upload of a readable file ends in [NameError] at its first attempt,
    before any request is sent, whatever the remote would answer. *)
Lemma upload_file_as_written (remote : nat → request → reply)
    (self : batch_manager.BatchManager) (file_path : string) (c : list string)
    (w : world) :
  fs w !! file_path = Some c →
  batch_manager.upload_file (Env batch_manager.module_globals remote) self file_path w
  = (Raise (NameError "os"), w, [EvLog INFO (MsgUploading file_path)]).
Proof.
  intros Hc. unfold batch_manager.upload_file.
  apply (retry_spec 1 4 10 _ 5 0 w w []); [constructor | lia | | done].
  apply (upload_unbound _ self file_path c); [done |].
  cbn [globals]. apply (bool_decide_unpack _). by vm_compute.
Qed.

(** So no unit gets past its upload there: [process_batch] raises on every
    readable chunk, and sends nothing. *)
Lemma process_batch_as_written (remote : nat → request → reply)
    (self : batch_manager.BatchManager) (fuel : nat) (chunk_file : string)
    (c : list string) (w : world) :
  fs w !! chunk_file = Some c →
  batch_manager.process_batch (Env batch_manager.module_globals remote) self fuel
    chunk_file w
  = (Raise (NameError "os"), w,
     [EvLog INFO (MsgUploading chunk_file);
      EvLog ERROR (MsgErrorProcessing chunk_file (NameError "os"))]).
Proof.
  intros Hc.
  by rewrite (process_batch_upload_failed _ self fuel chunk_file w (NameError "os") w
                [EvLog INFO (MsgUploading chunk_file)])
    by (by apply (upload_file_as_written remote self chunk_file c)).
Qed.

(** C7. If the upload of a unit fails, [process_batch] re-raises the error
    without a submit: the run holds no creation record and no request to
    [/v1/batches], and no poll either.  If the submit fails, the error is
    re-raised without a poll.  In the loop over the units the failure ends
    this unit only: the unit is put on the failed list and the loop goes on
    with the units that follow. *)
Theorem failed_step_ends_unit (E : env) (self : batch_manager.BatchManager)
    (fuel : nat) (chunk_file : string) (w : world) :
  let run := batch_manager.process_batch E self fuel chunk_file w in
  (∀ e w1 es,
     batch_manager.upload_file E self chunk_file w = (Raise e, w1, es) →
     run = (Raise e, w1, es ++ [EvLog ERROR (MsgErrorProcessing chunk_file e)]) ∧
     Forall (λ ev, is_submit_event ev = false ∧ is_poll_event ev = false) (events run)) ∧
  (∀ file_id w1 es e w2 es',
     batch_manager.upload_file E self chunk_file w = (Ret file_id, w1, es) →
     batch_manager.create_batch E self file_id None w1 = (Raise e, w2, es') →
     run = (Raise e, w2, es ++ es' ++ [EvLog ERROR (MsgErrorProcessing chunk_file e)]) ∧
     Forall (λ ev, is_poll_event ev = false) (events run)) ∧
  (∀ e w1 es rest failed processed,
     run = (Raise e, w1, es) →
     batch_manager.process_loop E self fuel (chunk_file :: rest) failed processed w
     = prepend (es ++ [EvLog ERROR (MsgFailedToProcess chunk_file e)])
         (batch_manager.process_loop E self fuel rest
            (failed ++ [chunk_file]) processed w1)).
Proof.
  intros run. subst run. split_and!.
  - intros e w1 es Hupload.
    rewrite (process_batch_upload_failed E self fuel _ _ _ _ _ Hupload).
    split; [done |]. unfold events. cbn [snd].
    destruct (upload_file_no_submit_no_poll E self chunk_file w) as [_ Hev].
    rewrite Hupload in Hev. apply Forall_app. split; [done |]. by repeat constructor.
  - intros file_id w1 es e w2 es' Hupload Hcreate.
    rewrite (process_batch_submit_failed E self fuel _ _ _ _ _ _ _ _ Hupload Hcreate).
    split; [done |]. unfold events. cbn [snd].
    destruct (upload_file_no_submit_no_poll E self chunk_file w) as [_ Hev].
    destruct (create_batch_no_poll E self file_id None w1) as [_ Hev'].
    rewrite Hupload in Hev. rewrite Hcreate in Hev'.
    rewrite !Forall_app. split_and!; [| done | by repeat constructor].
    eapply Forall_impl; [exact Hev |]. by intros ev [_ ?].
  - intros e w1 es rest failed processed Hunit. by apply process_loop_failed.
Qed.

(** C7 on the module as it is written: the upload of a readable chunk ends in
    [NameError], nothing is submitted or polled, and the loop goes on to the
    second chunk. *)
Lemma failed_step_ends_unit_witness :
  let E := Env batch_manager.module_globals
             (scripted [ok_json [("id", JStr "file_1")]]) in
  let self := batch_manager.Build_BatchManager "key" "/v1/completions" "24h" "out" 0 in
  let w := World {[ "c1.jsonl" := ["{}"]; "c2.jsonl" := ["{}"] ]} ∅ 0 1 in
  batch_manager.process_batch E self 5 "c1.jsonl" w
  = (Raise (NameError "os"), w,
     [EvLog INFO (MsgUploading "c1.jsonl");
      EvLog ERROR (MsgErrorProcessing "c1.jsonl" (NameError "os"))]).
Proof.
  intros E self w.
  destruct (failed_step_ends_unit E self 5 "c1.jsonl" w) as (Hupload & _).
  destruct (Hupload (NameError "os") w [EvLog INFO (MsgUploading "c1.jsonl")])
    as [Hrun _].
  - vm_compute. reflexivity.
  - exact Hrun.
Defined.

(** With [os] bound: the upload succeeds, the submit is rejected, and no
    status is ever requested. *)
Example submit_rejected_no_poll :
  let E := Env ("os" :: batch_manager.module_globals)
             (scripted [ok_json [("id", JStr "file_1")]; Resp (Response 400 None [])]) in
  let self := batch_manager.Build_BatchManager "key" "/v1/completions" "24h" "out" 0 in
  let w := World {[ "c1.jsonl" := ["{}"] ]} ∅ 0 1 in
  let run := batch_manager.process_batch E self 5 "c1.jsonl" w in
  outcome run = Raise (HTTPStatusError 400) ∧
  http_requests (events run) = 2%nat ∧
  forallb (λ ev, negb (is_poll_event ev)) (events run) = true.
Proof. vm_compute. done. Qed.

(** ** All units *)

Section all_units.

Context (E : env) (self : batch_manager.BatchManager) (fuel : nat).

Lemma units_run_names chunk_files w results w' es :
  units_run E self fuel chunk_files w results w' es → results.*1 = chunk_files.
Proof. induction 1; cbn; by f_equal. Qed.

Lemma process_loop_units chunk_files w results w' es failed processed :
  units_run E self fuel chunk_files w results w' es →
  batch_manager.process_loop E self fuel chunk_files failed processed w
  = (Ret (failed ++ failed_units results, processed ++ succeeded_units results),
     w', es).
Proof.
  intros Hrun. revert failed processed.
  induction Hrun as [w|chunk_file rest w w1 es results w2 es' Hunit _ IH
                      |chunk_file rest w e w1 es results w2 es' Hunit _ IH];
    intros failed processed.
  - cbn. by rewrite !app_nil_r.
  - rewrite (process_loop_succeeded E self fuel _ _ _ _ _ _ _ Hunit), IH.
    unfold prepend. cbn. by rewrite <- app_assoc.
  - rewrite (process_loop_failed E self fuel _ _ _ _ _ _ _ _ Hunit), IH.
    unfold prepend. cbn. by rewrite <- !app_assoc.
Qed.


Lemma units_run_fs_grows chunk_files w results w' es :
  units_run E self fuel chunk_files w results w' es → fs_grows w w'.
Proof.
  assert (Hunit : ∀ chunk_file w0,
            fs_grows w0 (final (batch_manager.process_batch E self fuel chunk_file w0))).
  { intros chunk_file w0.
    by destruct (process_batch_keeps E self fuel fs_grows (λ _, True)
                   (λ w path H, H) fs_grows_write (λ _ _, I) chunk_file w0). }
  induction 1 as [w|chunk_file rest w w1 es results w2 es' Hrun _ IH
                   |chunk_file rest w e w1 es results w2 es' Hrun _ IH].
  - reflexivity.
  - specialize (Hunit chunk_file w). rewrite Hrun in Hunit. by etrans.
  - specialize (Hunit chunk_file w). rewrite Hrun in Hunit. by etrans.
Qed.

End all_units.

(** ** Cleanup *)

Lemma clean_up_files_run (file_paths : list string) (w : world) :
  ∃ w' es,
    utils.clean_up_files file_paths w = (Ret tt, w', es) ∧
    ∀ path, fs w' !! path
            = if bool_decide (path ∈ file_paths) then None else fs w !! path.
Proof.
  revert w. induction file_paths as [|file_path rest IH]; intros w.
  { exists w, []. split; [done |]. intros path.
    by rewrite bool_decide_false by apply not_elem_of_nil. }
  cbn [utils.clean_up_files].
  assert (∃ w1 es1,
            try_except (os_remove file_path ;;; log INFO (MsgDeleted file_path))
              (λ e, log ERROR (MsgDeleteFailed file_path e)) w = (Ret tt, w1, es1) ∧
            fs w1 = delete file_path (fs w))
    as (w1 & es1 & Hstep & Hfs).
  { unfold try_except, bind, os_remove, log, emit.
    destruct (fs w !! file_path) eqn:Hfile; cbn.
    - by eexists _, _.
    - eexists _, _. split; [done |]. by rewrite delete_id. }
  destruct (IH w1) as (w' & es & Hrest & Hfs').
  exists w', (es1 ++ es). split.
  - rewrite (bind_Ret _ _ _ _ _ _ Hstep), Hrest. done.
  - intros path. rewrite Hfs', Hfs.
    destruct (decide (path = file_path)) as [->|Hne].
    + rewrite lookup_delete_eq.
      rewrite (bool_decide_true (file_path ∈ file_path :: rest)) by left.
      by destruct (bool_decide (file_path ∈ rest)).
    + rewrite lookup_delete_ne by done.
      rewrite (bool_decide_ext (path ∈ file_path :: rest) (path ∈ rest)); [done |].
      rewrite elem_of_cons. split; [by intros [?|?] | by right].
Qed.

Lemma clean_up_files_keeps (P : event → Prop) (file_paths : list string) :
  (∀ lvl m, P (EvLog lvl m)) →
  keeps any_world P (utils.clean_up_files file_paths).
Proof.
  intros HP. induction file_paths as [|file_path rest IH];
    cbn [utils.clean_up_files]; [keeps_auto |].
  keeps_step; [| by intros _].
  keeps_step; [| keeps_auto].
  keeps_step; [| keeps_auto].
  intros w. split; [done |]. unfold os_remove.
  destruct (fs w !! file_path); constructor.
Qed.

(** ** The run over all units *)

Lemma ensure_directory_run (path : string) (w : world) :
  utils.ensure_directory path w
  = (Ret tt, final (utils.ensure_directory path w), []) ∧
  fs (final (utils.ensure_directory path w)) = fs w.
Proof.
  unfold utils.ensure_directory, bind, os_path_exists.
  by destruct (_ || _).
Qed.

Lemma process_batches_run (E : env) (self : batch_manager.BatchManager)
    (fuel : nat) (chunk_files : list string) (w : world) results w1 es w2 es' :
  units_run E self fuel chunk_files
    (final (utils.ensure_directory (batch_manager.output_dir self) w)) results w1 es →
  utils.clean_up_files (succeeded_units results) w1 = (Ret tt, w2, es') →
  batch_manager.process_batches E self fuel chunk_files w
  = (Ret tt, w2, es ++ es' ++ [report (failed_units results)]).
Proof.
  intros Hunits Hclean. unfold batch_manager.process_batches.
  destruct (ensure_directory_run (batch_manager.output_dir self) w) as [Hensure _].
  rewrite (bind_Ret _ _ _ _ _ _ Hensure), prepend_nil.
  rewrite (bind_Ret _ _ _ _ _ _
             (process_loop_units E self fuel _ _ _ _ _ [] [] Hunits)).
  cbn [fst snd app]. rewrite (bind_Ret _ _ _ _ _ _ Hclean).
  unfold report, prepend. by destruct (bool_decide _).
Qed.



(** With [os] bound, two units of which the first succeeds and the job of the
    second is reported failed: the run ends with the failure list of the
    second unit, the chunk of the first is deleted and the chunk of the
    second is kept. *)
Example second_unit_failed :
  let E := Env ("os" :: batch_manager.module_globals)
             (scripted [ok_json [("id", JStr "file_1")];
                        ok_json [("id", JStr "batch_1")];
                        ok_json [("status", JStr "succeeded")];
                        ok_json [("status", JStr "succeeded");
                                 ("output_file_url", JStr "https://files/1")];
                        Resp (Response 200 None ["{}"]);
                        ok_json [("id", JStr "file_2")];
                        ok_json [("id", JStr "batch_2")];
                        ok_json [("status", JStr "failed")]]) in
  let self := batch_manager.Build_BatchManager "key" "/v1/completions" "24h" "out" 0 in
  let w := World {[ "c1.jsonl" := ["{}"]; "c2.jsonl" := ["{}"] ]} ∅ 0 1 in
  let run := batch_manager.process_batches E self 5 ["c1.jsonl"; "c2.jsonl"] w in
  outcome run = Ret tt ∧
  last (events run) = Some (EvLog WARNING (MsgFailedBatches ["c2.jsonl"])) ∧
  fs (final run) !! "c1.jsonl" = None ∧
  fs (final run) !! "c2.jsonl" = Some ["{}"] ∧
  fs (final run) !! "out/results_batch_1.jsonl" = Some ["{}"].
Proof. vm_compute. done. Qed.

Lemma elem_of_succeeded_units (results : list (string * option exn)) (p : string) :
  p ∈ succeeded_units results ↔ (p, None) ∈ results.
Proof.
  induction results as [|[q [e|]] rest IH]; cbn.
  - by rewrite !elem_of_nil.
  - rewrite IH, elem_of_cons. split; [by right | by intros [[=]|?]].
  - rewrite !elem_of_cons, IH.
    split; intros [H|H]; [left; by subst | by right | left; by injection H | by right].
Qed.

Lemma failed_not_succeeded (results : list (string * option exn)) (p : string) e :
  NoDup results.*1 → (p, Some e) ∈ results → (p, None) ∉ results.
Proof.
  induction results as [|[q o] rest IH]; intros Hdistinct Hin Hin'.
  { by apply elem_of_nil in Hin. }
  cbn in Hdistinct. apply NoDup_cons in Hdistinct as [Hq Hrest].
  apply elem_of_cons in Hin as [Heq|Hin];
    apply elem_of_cons in Hin' as [Heq'|Hin'].
  - congruence.
  - injection Heq as ? ?; subst. apply Hq, list_elem_of_fmap. by exists (q, None).
  - injection Heq' as ? ?; subst. apply Hq, list_elem_of_fmap. by exists (q, Some e).
  - by apply IH.
Qed.

(** C5. After a run of [process_batches] over pairwise distinct chunk files,
    the chunk file of every unit whose processing returned is gone, the chunk
    file of every unit whose processing raised is as the processing left it,
    still on disk if it was before the run, and no other file is deleted. *)
Theorem cleanup_deletes_succeeded_units (E : env)
    (self : batch_manager.BatchManager) (fuel : nat) (chunk_files : list string)
    (w : world) results w1 es :
  units_run E self fuel chunk_files
    (final (utils.ensure_directory (batch_manager.output_dir self) w)) results w1 es →
  NoDup chunk_files →
  let w' := final (batch_manager.process_batches E self fuel chunk_files w) in
  (∀ chunk_file, (chunk_file, None) ∈ results → fs w' !! chunk_file = None) ∧
  (∀ chunk_file e, (chunk_file, Some e) ∈ results →
     fs w' !! chunk_file = fs w1 !! chunk_file ∧
     (is_Some (fs w !! chunk_file) → is_Some (fs w' !! chunk_file))) ∧
  (∀ path, path ∉ succeeded_units results → fs w' !! path = fs w1 !! path).
Proof.
  intros Hunits Hdistinct w'.
  destruct (clean_up_files_run (succeeded_units results) w1) as (w2 & es' & Hclean & Hfs).
  subst w'. rewrite (process_batches_run E self fuel _ _ _ _ _ _ _ Hunits Hclean).
  unfold final. cbn [fst snd].
  pose proof (units_run_names _ _ _ _ _ _ _ _ Hunits) as Hnames.
  assert (Hkept : ∀ path, path ∉ succeeded_units results → fs w2 !! path = fs w1 !! path).
  { intros path Hpath. by rewrite Hfs, bool_decide_false. }
  split_and!; [| | done].
  - intros chunk_file Hin. rewrite Hfs, bool_decide_true; [done |].
    by apply elem_of_succeeded_units.
  - intros chunk_file e Hin.
    assert (chunk_file ∉ succeeded_units results) as Hnot.
    { rewrite elem_of_succeeded_units. apply (failed_not_succeeded _ _ e); [| done].
      by rewrite Hnames. }
    split; [by apply Hkept |].
    rewrite (Hkept _ Hnot). intros Hbefore.
    apply (units_run_fs_grows _ _ _ _ _ _ _ _ Hunits).
    destruct (ensure_directory_run (batch_manager.output_dir self) w) as [_ Heq].
    by rewrite Heq.
Qed.

(** C5 on two units, the first succeeding and the job of the second reported
    failed (with [os] bound): the first chunk is deleted, the second is
    kept. *)
Lemma cleanup_deletes_succeeded_units_witness :
  let E := Env ("os" :: batch_manager.module_globals)
             (scripted [ok_json [("id", JStr "file_1")];
                        ok_json [("id", JStr "batch_1")];
                        ok_json [("status", JStr "succeeded")];
                        ok_json [("status", JStr "succeeded");
                                 ("output_file_url", JStr "https://files/1")];
                        Resp (Response 200 None ["{}"]);
                        ok_json [("id", JStr "file_2")];
                        ok_json [("id", JStr "batch_2")];
                        ok_json [("status", JStr "failed")]]) in
  let self := batch_manager.Build_BatchManager "key" "/v1/completions" "24h" "out" 0 in
  let w := World {[ "c1.jsonl" := ["{}"]; "c2.jsonl" := ["{}"] ]} ∅ 0 1 in
  let w' := final (batch_manager.process_batches E self 5 ["c1.jsonl"; "c2.jsonl"] w) in
  fs w' !! "c1.jsonl" = None ∧ is_Some (fs w' !! "c2.jsonl").
Proof.
  intros E self w w'.
  edestruct (cleanup_deletes_succeeded_units E self 5 ["c1.jsonl"; "c2.jsonl"] w)
    as (Hdeleted & Hkept & _).
  - eapply units_succeeded; [vm_compute; reflexivity |].
    eapply units_failed; [vm_compute; reflexivity |].
    apply units_nil.
  - apply NoDup_cons. split; [| apply NoDup_singleton].
    intros Hin. by apply list_elem_of_singleton in Hin.
  - split.
    + apply Hdeleted. left.
    + eapply Hkept; [right; left | vm_compute; by eexists].
Defined.

(** ** Fuel

    Fuel bounds the iterations of the polling loop only; a run that ends
    within its fuel is the same run under any larger fuel. *)

Lemma bind_more_fuel {A B} (m m' : M A) (g g' : A → M B) (w : world) :
  (outcome (m w) ≠ OutOfFuel → m' w = m w) →
  (∀ a w1, outcome (g a w1) ≠ OutOfFuel → g' a w1 = g a w1) →
  outcome (bind m g w) ≠ OutOfFuel → bind m' g' w = bind m g w.
Proof.
  intros Hm Hg. unfold bind.
  destruct (m w) as [[[a|e|] w1] e1]; intros Hends; rewrite Hm by done; try done.
  rewrite Hg; [done |]. by destruct (g a w1) as [[r w2] e2].
Qed.

Lemma try_except_more_fuel {A} (m m' : M A) (h : exn → M A) (w : world) :
  (outcome (m w) ≠ OutOfFuel → m' w = m w) →
  outcome (try_except m h w) ≠ OutOfFuel → try_except m' h w = try_except m h w.
Proof.
  intros Hm Hends. unfold try_except in *.
  rewrite Hm; [done |]. by destruct (m w) as [[[a|e|] w1] e1].
Qed.

Lemma try_finally_more_fuel {A} (m m' : M A) (fin : M unit) (w : world) :
  (outcome (m w) ≠ OutOfFuel → m' w = m w) →
  outcome (try_finally m fin w) ≠ OutOfFuel → try_finally m' fin w = try_finally m fin w.
Proof.
  intros Hm Hends. unfold try_finally in *.
  rewrite Hm; [done |]. by destruct (m w) as [[[a|e|] w1] e1].
Qed.

Section more_fuel.

Context (E : env) (self : batch_manager.BatchManager) (fuel extra : nat).

Lemma poll_loop_more_fuel batch_id n w :
  outcome (batch_manager.poll_loop E self batch_id fuel n w) ≠ OutOfFuel →
  batch_manager.poll_loop E self batch_id (fuel + extra) n w
  = batch_manager.poll_loop E self batch_id fuel n w.
Proof.
  revert n w. induction fuel as [|fuel' IH]; intros n w; [done |].
  cbn [Nat.add batch_manager.poll_loop].
  apply bind_more_fuel; [done |]. intros status_info w1.
  apply bind_more_fuel; [done |]. intros status w2.
  destruct (eq_str status "succeeded"); [done |].
  destruct (eq_str status "failed" || eq_str status "cancelled"); [done |].
  apply bind_more_fuel; [done |]. intros _ w3.
  apply bind_more_fuel; [done |]. intros _ w4. apply IH.
Qed.

Lemma process_batch_more_fuel chunk_file w :
  outcome (batch_manager.process_batch E self fuel chunk_file w) ≠ OutOfFuel →
  batch_manager.process_batch E self (fuel + extra) chunk_file w
  = batch_manager.process_batch E self fuel chunk_file w.
Proof.
  unfold batch_manager.process_batch. apply try_except_more_fuel.
  apply bind_more_fuel; [done |]. intros file_id w1.
  apply bind_more_fuel; [done |]. intros batch_id w2.
  unfold batch_manager.poll_and_download.
  apply bind_more_fuel; [apply poll_loop_more_fuel | done].
Qed.

Lemma process_loop_more_fuel chunk_files failed processed w :
  outcome (batch_manager.process_loop E self fuel chunk_files failed processed w)
    ≠ OutOfFuel →
  batch_manager.process_loop E self (fuel + extra) chunk_files failed processed w
  = batch_manager.process_loop E self fuel chunk_files failed processed w.
Proof.
  revert failed processed w.
  induction chunk_files as [|chunk_file rest IH]; intros failed processed w; [done |].
  cbn [batch_manager.process_loop].
  apply bind_more_fuel; [| intros acc w1; apply IH].
  apply try_except_more_fuel.
  apply bind_more_fuel; [apply process_batch_more_fuel | done].
Qed.

Lemma process_batches_more_fuel chunk_files w :
  outcome (batch_manager.process_batches E self fuel chunk_files w) ≠ OutOfFuel →
  batch_manager.process_batches E self (fuel + extra) chunk_files w
  = batch_manager.process_batches E self fuel chunk_files w.
Proof.
  unfold batch_manager.process_batches.
  apply bind_more_fuel; [done |]. intros _ w1.
  apply bind_more_fuel; [apply process_loop_more_fuel | done].
Qed.

End more_fuel.

Lemma run_batch_processing_more_fuel (E : env) (API_KEY : string) (fuel extra : nat)
    (input_file output_dir : string) (chunk_size : Z)
    (completion_window endpoint : string) (w : world) :
  outcome (cli.run_batch_processing E API_KEY fuel input_file output_dir
             chunk_size completion_window endpoint w) ≠ OutOfFuel →
  cli.run_batch_processing E API_KEY (fuel + extra) input_file output_dir
    chunk_size completion_window endpoint w
  = cli.run_batch_processing E API_KEY fuel input_file output_dir
      chunk_size completion_window endpoint w.
Proof.
  unfold cli.run_batch_processing.
  apply bind_more_fuel; [done |]. intros manager w1.
  apply try_finally_more_fuel, try_except_more_fuel.
  apply bind_more_fuel; [done |]. intros _ w2.
  apply bind_more_fuel; [done |]. intros chunk_files w3.
  apply bind_more_fuel; [done |]. intros _ w4.
  destruct (bool_decide (chunk_files = [])); [done |].
  apply process_batches_more_fuel.
Qed.

(** ** The entry point *)

Section entry_point.

Context (E : env) (P : event → Prop).

Lemma split_loop_keeps input_file chunk_size lines line_number s :
  keeps any_world P (utils.split_loop input_file chunk_size lines line_number s).
Proof.
  revert line_number s. induction lines as [|line rest IH]; intros line_number s;
    cbn [utils.split_loop]; [keeps_auto |].
  keeps_step; [keeps_auto | intros r].
  keeps_step; [keeps_auto | intros s1; apply IH].
Qed.

Lemma split_jsonl_file_keeps input_file chunk_size :
  keeps any_world P (utils.split_jsonl_file input_file chunk_size).
Proof.
  unfold utils.split_jsonl_file.
  keeps_step; [keeps_auto | intros infile].
  keeps_step; [apply split_loop_keeps | keeps_auto].
Qed.

Context (self : batch_manager.BatchManager) (fuel : nat).
Hypothesis P_uses_client : ∀ e, uses_client (batch_manager.client self) e → P e.

Lemma process_loop_keeps chunk_files failed processed :
  keeps any_world P
    (batch_manager.process_loop E self fuel chunk_files failed processed).
Proof.
  revert failed processed.
  induction chunk_files as [|chunk_file rest IH]; intros failed processed;
    cbn [batch_manager.process_loop]; [keeps_auto |].
  keeps_step; [| intros acc; apply IH].
  keeps_step; [| keeps_auto; by apply P_uses_client].
  keeps_step; [| keeps_auto].
  by apply process_batch_keeps.
Qed.

Lemma process_batches_keeps chunk_files :
  keeps any_world P (batch_manager.process_batches E self fuel chunk_files).
Proof.
  unfold batch_manager.process_batches.
  keeps_step; [keeps_auto | intros _].
  keeps_step; [apply process_loop_keeps | intros acc].
  keeps_step; [| keeps_auto; by apply P_uses_client].
  apply clean_up_files_keeps. intros lvl m. by apply P_uses_client.
Qed.

End entry_point.

(** C8. [run_batch_processing] creates its HTTP client when it builds the
    manager and creates no other; every request of the run goes over that
    client; and whenever the run ends, be it after the batches were
    processed, after an early return on an empty chunk list, or after an
    exception was caught, the client is closed by the [finally] block as the
    last thing the run does, and the run returns normally. *)
Theorem one_client_opened_and_closed (E : env) (API_KEY : string) (fuel : nat)
    (input_file output_dir : string) (chunk_size : Z)
    (completion_window endpoint : string) (w : world) :
  let run := cli.run_batch_processing E API_KEY fuel input_file output_dir
               chunk_size completion_window endpoint w in
  outcome run ≠ OutOfFuel →
  outcome run = Ret tt ∧
  ∃ es,
    events run = EvClientOpen (clients w) :: es ++ [EvClientClose (clients w)] ∧
    Forall (uses_client (clients w)) es.
Proof.
  intros run Hends. subst run. revert Hends.
  unfold cli.run_batch_processing.
  erewrite bind_Ret; [| reflexivity].
  set (manager := batch_manager.Build_BatchManager _ _ _ _ _).
  set (w0 := World _ _ _ _).
  set (body := try_except _ _).
  assert (Hbody : keeps any_world (uses_client (clients w)) body).
  { subst body. keeps_step; [| keeps_auto].
    keeps_step; [keeps_auto | intros _].
    keeps_step; [apply split_jsonl_file_keeps | intros chunk_files].
    keeps_step; [keeps_auto | intros _].
    destruct (bool_decide (chunk_files = [])); [keeps_auto |].
    by apply process_batches_keeps. }
  destruct (Hbody w0) as [_ Hevents].
  assert (Hcaught : ∀ e, outcome (body w0) ≠ Raise e).
  { intros e. subst body. unfold try_except, log, emit.
    by destruct (bind _ _ w0) as [[[[]|e'|] w1] es]. }
  unfold try_finally, batch_manager.close, emit.
  destruct (body w0) as [[[[]|e|] w1] es]; cbn.
  - intros _. split; [done |]. by exists es.
  - by specialize (Hcaught e).
  - done.
Qed.

(** C8 on a run that ends in an exception: chunk size 0 on a non-empty
    input.  The [ZeroDivisionError] is caught and recorded, and the client is
    closed. *)
Lemma one_client_opened_and_closed_witness :
  let E := Env batch_manager.module_globals (scripted []) in
  let w := World {[ "in.jsonl" := ["{}"] ]} ∅ 0 0 in
  let run := cli.run_batch_processing E "key" 5 "in.jsonl" "out" 0 "24h"
               "/v1/completions" w in
  outcome run = Ret tt ∧
  events run
  = [EvClientOpen 0; EvLog INFO MsgSplitting; EvLog ERROR (MsgRunError ZeroDivisionError);
     EvClientClose 0].
Proof.
  intros E w run.
  destruct (one_client_opened_and_closed E "key" 5 "in.jsonl" "out" 0 "24h"
              "/v1/completions" w) as (Hreturns & es & Hevents & _).
  - vm_compute. discriminate.
  - split; [exact Hreturns |]. clear Hreturns Hevents. vm_compute. reflexivity.
Defined.

(** The run over two chunks on the module as it is written: one client, the
    two units fail at the upload, and the client is closed at the end. *)
Example run_opens_and_closes_once :
  let E := Env batch_manager.module_globals (scripted []) in
  let w := World {[ "in.jsonl" := ["{}"; "{}"] ]} ∅ 0 0 in
  let run := cli.run_batch_processing E "key" 5 "in.jsonl" "out" 1 "24h"
               "/v1/completions" w in
  outcome run = Ret tt ∧
  head (events run) = Some (EvClientOpen 0) ∧
  last (events run) = Some (EvClientClose 0) ∧
  length (List.filter (λ e, match e with
                            | EvClientOpen _ | EvClientClose _ => true
                            | _ => false
                            end) (events run)) = 2%nat.
Proof. vm_compute. done. Qed.

(** * Further properties of the code *)

(** ** Operations of one request per attempt *)

Section one_request.

Context {A : Type} (E : env) (body : M A) (rq : request)
  (decode : response → result A).
Hypothesis body_run : ∀ w, ∃ es,
  body w = (match remote E (sent w) rq with
            | NetFail => Raise RequestError
            | Resp r => decode r
            end, bump w, es).
Hypothesis decode_not_transient : ∀ r, decode r ≠ Raise RequestError.

Lemma one_request_transient multiplier wmin wmax a k w w1 es :
  transient_attempts multiplier wmin wmax body a k w w1 es →
  w1 = Nat.iter k bump w ∧
  ∀ i, (i < k)%nat → remote E (sent w + i) rq = NetFail.
Proof.
  induction 1 as [a w|a n w w1 e1 w2 es Hbody _ IH].
  { split; [done | lia]. }
  destruct (body_run w) as [es' Hrun]. rewrite Hrun in Hbody.
  injection Hbody as Hr <- _. destruct IH as [-> Hfail]. split.
  - clear. induction n; cbn; [done |]. by f_equal.
  - intros [|i] Hi.
    + rewrite Nat.add_0_r. destruct (remote E (sent w) rq) as [|r]; [done |].
      by apply decode_not_transient in Hr.
    + specialize (Hfail i). cbn [bump sent] in Hfail.
      rewrite <- Nat.add_succ_comm. apply Hfail. lia.
Qed.

Lemma one_request_retry (budget : nat) multiplier wmin wmax w :
  (1 ≤ budget)%nat →
  ∃ (k : nat) es,
    (k < budget)%nat ∧
    (∀ i, (i < k)%nat → remote E (sent w + i) rq = NetFail) ∧
    (remote E (sent w + k) rq = NetFail → S k = budget) ∧
    retry budget multiplier wmin wmax body w
    = (match remote E (sent w + k) rq with
       | NetFail => Raise RequestError
       | Resp r => decode r
       end, Nat.iter (S k) bump w, es).
Proof.
  intros Hbudget. unfold retry.
  destruct (retry_from_shape multiplier wmin wmax body 1 (budget - 1) w)
    as (k & w1 & es & r & w2 & e & Hk & Hle & Hbody & Hlast & ->).
  destruct (one_request_transient _ _ _ _ _ _ _ _ Hk) as [-> Hfail].
  destruct (sent_iter_bump k w) as [Hsent _].
  destruct (body_run (Nat.iter k bump w)) as [es' Hrun].
  rewrite Hrun, Hsent in Hbody. injection Hbody as <- <- <-.
  exists k, (es ++ es'). split_and!; [lia | done | | done].
  intros Hnet. rewrite Hnet in Hlast. specialize (Hlast eq_refl). lia.
Qed.

End one_request.

Lemma id_of_response_not_transient (r : response) :
  id_of_response r ≠ Raise RequestError.
Proof.
  unfold id_of_response.
  by destruct (is_success r), (body r) as [[fields|]|];
    try destruct (assoc fields "id").
Qed.

Lemma snapshot_of_response_not_transient (r : response) :
  snapshot_of_response r ≠ Raise RequestError.
Proof.
  unfold snapshot_of_response.
  by destruct (is_success r), (body r) as [[fields|]|].
Qed.

Lemma create_batch_attempt (E : env) (self : batch_manager.BatchManager)
    (input_file_id : jval) metadata w :
  ∃ es,
    batch_manager.create_batch_body E self input_file_id metadata w
    = (match remote E (sent w) (create_request self input_file_id metadata) with
       | NetFail => Raise RequestError
       | Resp r => id_of_response r
       end, bump w, es).
Proof.
  unfold batch_manager.create_batch_body, log. rewrite bind_emit.
  cbv zeta. fold (create_request self input_file_id metadata).
  unfold try_except, bind, client_send, id_of_response, raise_for_status,
    response_json.
  destruct (remote E (sent w) _) as [|r]; [by eexists |].
  destruct (is_success r); cbn; [| by eexists].
  destruct (body r) as [[fields|]|]; cbn; try by eexists.
  destruct (assoc fields "id"); cbn; by eexists.
Qed.

Lemma get_batch_status_attempt (E : env) (self : batch_manager.BatchManager)
    (batch_id : jval) w :
  ∃ es,
    batch_manager.get_batch_status_body E self batch_id w
    = (match remote E (sent w) (status_request batch_id) with
       | NetFail => Raise RequestError
       | Resp r => snapshot_of_response r
       end, bump w, es).
Proof.
  unfold batch_manager.get_batch_status_body, log. rewrite bind_emit.
  cbv zeta. fold (status_request batch_id).
  unfold try_except, bind, client_send, snapshot_of_response, raise_for_status,
    response_json.
  destruct (remote E (sent w) _) as [|r]; [by eexists |].
  destruct (is_success r); cbn; [| by eexists].
  destruct (body r) as [[fields|]|]; cbn; by eexists.
Qed.

(** What a status poll comes to, by the reply that ends it. *)
Lemma get_batch_status_run (E : env) (self : batch_manager.BatchManager)
    (batch_id : jval) (w : world) :
  ∃ (k : nat) es,
    (k < 5)%nat ∧
    (∀ i, (i < k)%nat → remote E (sent w + i) (status_request batch_id) = NetFail) ∧
    (remote E (sent w + k) (status_request batch_id) = NetFail → k = 4%nat) ∧
    batch_manager.get_batch_status E self batch_id w
    = (match remote E (sent w + k) (status_request batch_id) with
       | NetFail => Raise RequestError
       | Resp r => snapshot_of_response r
       end, Nat.iter (S k) bump w, es).
Proof.
  destruct (one_request_retry E (batch_manager.get_batch_status_body E self batch_id)
              (status_request batch_id) snapshot_of_response
              (get_batch_status_attempt E self batch_id)
              snapshot_of_response_not_transient 5 1 4 10 w)
    as (k & es & Hk & Hfail & Hlast & Hrun); [lia |].
  exists k, es. split_and!; try done. intros Hnet. specialize (Hlast Hnet). lia.
Qed.

Lemma get_batch_status_fs (E : env) (self : batch_manager.BatchManager)
    (batch_id : jval) (w : world) :
  fs (final (batch_manager.get_batch_status E self batch_id w)) = fs w.
Proof.
  destruct (get_batch_status_run E self batch_id w) as (k & es & _ & _ & _ & Hrun).
  rewrite Hrun. unfold final. cbn [fst snd]. by destruct (sent_iter_bump (S k) w).
Qed.

(** X1. [create_batch] sends the same request at most five times, going on
    only after a transport failure; the first reply that is a response
    decides the call: the ['id'] field of a 2xx JSON object is returned, any
    other response raises ([HTTPStatusError], [JSONDecodeError], [TypeError]
    or [KeyError]) without retry, and five transport failures raise
    [RequestError].  Each attempt counts one request and nothing else of the
    world changes; an empty [metadata] dict is left out of the request like
    [None]. *)
Theorem create_batch_outcomes (E : env) (self : batch_manager.BatchManager)
    (input_file_id : jval) (metadata : option (list (string * string)))
    (w : world) :
  let rq := create_request self input_file_id metadata in
  let run := batch_manager.create_batch E self input_file_id metadata w in
  (∃ k : nat,
     (k < 5)%nat ∧
     (∀ i, (i < k)%nat → remote E (sent w + i) rq = NetFail) ∧
     (remote E (sent w + k) rq = NetFail → k = 4%nat) ∧
     outcome run = match remote E (sent w + k) rq with
                   | NetFail => Raise RequestError
                   | Resp r => id_of_response r
                   end ∧
     final run = Nat.iter (S k) bump w) ∧
  create_request self input_file_id (Some []) = create_request self input_file_id None.
Proof.
  intros rq run. split; [| done].
  destruct (one_request_retry E
              (batch_manager.create_batch_body E self input_file_id metadata)
              rq id_of_response
              (create_batch_attempt E self input_file_id metadata)
              id_of_response_not_transient 5 1 4 10 w)
    as (k & es & Hk & Hfail & Hlast & Hrun); [lia |].
  exists k. subst run. unfold batch_manager.create_batch.
  split_and!; try done.
  - intros Hnet. specialize (Hlast Hnet). lia.
  - by rewrite Hrun.
  - by rewrite Hrun.
Qed.

(** X2. [get_batch_status] sends its request at most five times, going on
    only after a transport failure, and whatever it returns is a JSON
    object: a 2xx body that is JSON but no object raises [AttributeError]
    (from the [.get('status')] of the debug record) and one that is not JSON
    raises [JSONDecodeError], neither retried.  The file system is left as it
    was. *)
Theorem get_batch_status_outcomes (E : env) (self : batch_manager.BatchManager)
    (batch_id : jval) (w : world) :
  let rq := status_request batch_id in
  let run := batch_manager.get_batch_status E self batch_id w in
  (∃ k : nat,
     (k < 5)%nat ∧
     (∀ i, (i < k)%nat → remote E (sent w + i) rq = NetFail) ∧
     (remote E (sent w + k) rq = NetFail → k = 4%nat) ∧
     outcome run = match remote E (sent w + k) rq with
                   | NetFail => Raise RequestError
                   | Resp r => snapshot_of_response r
                   end ∧
     final run = Nat.iter (S k) bump w) ∧
  (∀ j, outcome run = Ret j → ∃ fields, j = JObj fields) ∧
  fs (final run) = fs w.
Proof.
  intros rq run. subst rq run.
  destruct (get_batch_status_run E self batch_id w)
    as (k & es & Hk & Hfail & Hlast & Hrun).
  rewrite Hrun. unfold outcome, final. cbn [fst snd]. split_and!.
  - by exists k.
  - intros j. destruct (remote E (sent w + k) _) as [|r]; [done |].
    unfold snapshot_of_response.
    destruct (is_success r), (body r) as [[fields|]|]; try done.
    intros [= <-]. by exists fields.
  - by destruct (sent_iter_bump (S k) w).
Qed.

(** ** Download *)

Section download.

Context (E : env) (self : batch_manager.BatchManager) (batch_id : jval)
  (output_file : string).

Lemma download_body_status_failed w e w1 e1 :
  batch_manager.get_batch_status E self batch_id w = (Raise e, w1, e1) →
  batch_manager.download_batch_results_body E self batch_id output_file w
  = (Raise e, w1, EvLog INFO (MsgDownloading batch_id output_file) :: e1).
Proof.
  intros Hpoll. unfold batch_manager.download_batch_results_body, log.
  rewrite bind_emit. by rewrite (bind_Raise _ _ _ _ _ _ Hpoll).
Qed.

Lemma download_body_no_url w fields w1 e1 :
  batch_manager.get_batch_status E self batch_id w = (Ret (JObj fields), w1, e1) →
  truthy (dict_get fields "output_file_url") = false →
  batch_manager.download_batch_results_body E self batch_id output_file w
  = (Raise (ValueError "Output file URL not found in batch info."), w1,
     EvLog INFO (MsgDownloading batch_id output_file) ::
     e1 ++ [EvLog ERROR (MsgNoOutputUrl batch_id)]).
Proof.
  intros Hpoll Hurl. unfold batch_manager.download_batch_results_body, log.
  rewrite bind_emit, (bind_Ret _ _ _ _ _ _ Hpoll). cbn [py_get].
  unfold bind at 1. cbn [ret]. rewrite Hurl. cbn [negb].
  rewrite bind_emit. unfold prepend, raise. cbn. by rewrite ?app_nil_r.
Qed.


End download.

(** X3. When the status snapshot has no usable ['output_file_url'] (the key
    is missing, or its value is [None], empty, zero or false),
    [download_batch_results] raises [ValueError] at its first attempt: the
    error is not retried, no download request is sent and no file is
    written. *)
Theorem download_without_url (E : env) (self : batch_manager.BatchManager)
    (batch_id : jval) (output_file : string) (w : world)
    (fields : list (string * jval)) (w1 : world) (e1 : list event) :
  batch_manager.get_batch_status E self batch_id w = (Ret (JObj fields), w1, e1) →
  truthy (dict_get fields "output_file_url") = false →
  batch_manager.download_batch_results E self batch_id output_file w
  = (Raise (ValueError "Output file URL not found in batch info."), w1,
     EvLog INFO (MsgDownloading batch_id output_file) ::
     e1 ++ [EvLog ERROR (MsgNoOutputUrl batch_id)]) ∧
  fs w1 = fs w.
Proof.
  intros Hpoll Hurl. split.
  - unfold batch_manager.download_batch_results.
    apply (retry_spec 1 2 5 _ 3 0 w w []); [constructor | lia | | done].
    by eapply download_body_no_url.
  - pose proof (get_batch_status_fs E self batch_id w) as Hfs.
    by rewrite Hpoll in Hfs.
Qed.

(** X3 on a snapshot as the batch API of the remote gives it, with an
    ['output_file_id'] and no ['output_file_url']. *)
Lemma download_without_url_witness :
  let E := Env batch_manager.module_globals
             (scripted [ok_json [("status", JStr "completed");
                                 ("output_file_id", JStr "file-out")]]) in
  let self := batch_manager.Build_BatchManager "key" "/v1/completions" "24h" "out" 0 in
  let run := batch_manager.download_batch_results E self (JStr "batch_1")
               "out/results_batch_1.jsonl" (World ∅ ∅ 0 1) in
  outcome run = Raise (ValueError "Output file URL not found in batch info.") ∧
  http_requests (events run) = 1%nat.
Proof.
  intros E self run.
  pose (w0 := World ∅ ∅ 0 1).
  pose (poll0 := batch_manager.get_batch_status E self (JStr "batch_1") w0).
  destruct (download_without_url E self (JStr "batch_1") "out/results_batch_1.jsonl" w0
              [("status", JStr "completed"); ("output_file_id", JStr "file-out")]
              (final poll0) (events poll0)) as [Hrun _].
  - vm_compute. reflexivity.
  - reflexivity.
  - subst run. fold w0. rewrite Hrun. split; [done |]. vm_compute. reflexivity.
Defined.



(** X5. The two retry budgets multiply: when the remote answers none of the
    next fifteen requests, each of the three attempts of
    [download_batch_results] uses up the five attempts of its status poll,
    and the call raises [RequestError] after fifteen requests, with no file
    written. *)
Theorem download_remote_down (E : env) (self : batch_manager.BatchManager)
    (batch_id : jval) (output_file : string) (w : world) :
  (∀ i rq, (i < 15)%nat → remote E (sent w + i) rq = NetFail) →
  let run := batch_manager.download_batch_results E self batch_id output_file w in
  outcome run = Raise RequestError ∧
  final run = Nat.iter 15 bump w ∧
  fs (final run) = fs w.
Proof.
  intros Hdown run.
  assert (Hpoll : ∀ n, (n + 5 ≤ 15)%nat →
            ∃ es, batch_manager.get_batch_status E self batch_id (Nat.iter n bump w)
                  = (Raise RequestError, Nat.iter (n + 5) bump w, es)).
  { intros n Hn.
    destruct (get_batch_status_run E self batch_id (Nat.iter n bump w))
      as (k & es & Hk & _ & Hlast & Hrun).
    destruct (sent_iter_bump n w) as [Hsent _]. rewrite Hsent in Hrun, Hlast.
    rewrite <- Nat.add_assoc in Hrun, Hlast.
    rewrite Hdown in Hrun, Hlast by lia. specialize (Hlast eq_refl) as ->.
    exists es. rewrite Hrun. do 2 f_equal.
    rewrite (Nat.add_comm n 5). by rewrite Nat.iter_add. }
  assert (Hbody : ∀ n, (n + 5 ≤ 15)%nat →
            ∃ es, batch_manager.download_batch_results_body E self batch_id output_file
                    (Nat.iter n bump w)
                  = (Raise RequestError, Nat.iter (n + 5) bump w, es)).
  { intros n Hn. destruct (Hpoll n Hn) as [es Hes].
    eexists. by apply download_body_status_failed. }
  destruct (Hbody 0%nat) as [es1 H1]; [lia |].
  destruct (Hbody 5%nat) as [es2 H2]; [lia |].
  destruct (Hbody 10%nat) as [es3 H3]; [lia |].
  subst run. unfold batch_manager.download_batch_results.
  erewrite (retry_spec 1 2 5 _ 3 2 w (Nat.iter 10 bump w));
    [| econstructor; [exact H1 | econstructor; [exact H2 | constructor]]
     | lia | exact H3 | done].
  split_and!; [done | done |]. by destruct (sent_iter_bump 15 w).
Qed.

(** X5 on a remote that answers nothing. *)
Lemma download_remote_down_witness :
  let E := Env batch_manager.module_globals (scripted []) in
  let self := batch_manager.Build_BatchManager "key" "/v1/completions" "24h" "out" 0 in
  let run := batch_manager.download_batch_results E self (JStr "batch_1")
               "out/results_batch_1.jsonl" (World ∅ ∅ 0 1) in
  outcome run = Raise RequestError ∧ sent (final run) = 15%nat.
Proof.
  intros E self run.
  destruct (download_remote_down E self (JStr "batch_1") "out/results_batch_1.jsonl"
              (World ∅ ∅ 0 1)) as (Hout & Hfinal & _).
  - intros i rq _. unfold scripted. apply nth_overflow. cbn. lia.
  - subst run. split; [exact Hout |]. by rewrite Hfinal.
Defined.

(** ** The module as it is written *)

(** X6. In [batch_manager.py] as it is written the name [os] is not bound
    ([os] is not imported), so [upload_file] raises [NameError] on every
    readable file, at its first attempt and before any request is sent,
    whatever the remote would answer; [process_batch] records the error and
    re-raises it. *)
Theorem upload_raises_name_error (remote : nat → request → reply)
    (self : batch_manager.BatchManager) (fuel : nat) (file_path : string)
    (c : list string) (w : world) :
  fs w !! file_path = Some c →
  let E := Env batch_manager.module_globals remote in
  batch_manager.upload_file E self file_path w
  = (Raise (NameError "os"), w, [EvLog INFO (MsgUploading file_path)]) ∧
  batch_manager.process_batch E self fuel file_path w
  = (Raise (NameError "os"), w,
     [EvLog INFO (MsgUploading file_path);
      EvLog ERROR (MsgErrorProcessing file_path (NameError "os"))]).
Proof.
  intros Hc E. split.
  - by apply (upload_file_as_written remote self file_path c).
  - by apply (process_batch_as_written remote self fuel file_path c).
Qed.

(** X6 on a remote that would accept the upload. *)
Lemma upload_raises_name_error_witness :
  let E := Env batch_manager.module_globals (scripted [ok_json [("id", JStr "file_123")]]) in
  let self := batch_manager.Build_BatchManager "test_key" "/v1/completions" "24h" "." 0 in
  let w := World {[ "test.jsonl" := ["{}"] ]} ∅ 0 1 in
  outcome (batch_manager.upload_file E self "test.jsonl" w) = Raise (NameError "os").
Proof.
  intros E self w.
  destruct (upload_raises_name_error (scripted [ok_json [("id", JStr "file_123")]])
              self 5 "test.jsonl" ["{}"] w) as [Hupload _].
  - vm_compute. reflexivity.
  - subst E. by rewrite Hupload.
Defined.

Lemma units_run_as_written (remote : nat → request → reply)
    (self : batch_manager.BatchManager) (fuel : nat) (chunk_files : list string)
    (w : world) :
  (∀ p, p ∈ chunk_files → is_Some (fs w !! p)) →
  units_run (Env batch_manager.module_globals remote) self fuel chunk_files w
    ((λ p, (p, Some (NameError "os"))) <$> chunk_files) w
    (chunk_files ≫= name_error_records).
Proof.
  induction chunk_files as [|chunk_file rest IH]; intros Hreadable; [constructor |].
  destruct (Hreadable chunk_file) as [c Hc]; [left |].
  cbn. apply units_failed
         with (w1 := w)
              (es := [EvLog INFO (MsgUploading chunk_file);
                      EvLog ERROR (MsgErrorProcessing chunk_file (NameError "os"))]).
  - by apply (process_batch_as_written remote self fuel chunk_file c).
  - apply IH. intros p Hp. apply Hreadable. by right.
Qed.

Lemma ensure_directory_frame (path : string) (w : world) :
  sent (final (utils.ensure_directory path w)) = sent w ∧
  clients (final (utils.ensure_directory path w)) = clients w.
Proof.
  unfold utils.ensure_directory, bind, os_path_exists.
  by destruct (_ || _).
Qed.

Lemma process_batches_unbound (remote : nat → request → reply)
    (self : batch_manager.BatchManager) (fuel : nat) (chunk_files : list string)
    (w : world) :
  (∀ p, p ∈ chunk_files → is_Some (fs w !! p)) →
  batch_manager.process_batches
    (Env batch_manager.module_globals remote) self fuel chunk_files w
  = (Ret tt, final (utils.ensure_directory (batch_manager.output_dir self) w),
     (chunk_files ≫= name_error_records) ++ [report chunk_files]).
Proof.
  intros Hreadable.
  destruct (ensure_directory_run (batch_manager.output_dir self) w) as [_ Hfs].
  set (w0 := final (utils.ensure_directory (batch_manager.output_dir self) w)) in *.
  assert (Hunits := units_run_as_written remote self fuel chunk_files w0).
  rewrite Hfs in Hunits. specialize (Hunits Hreadable).
  assert (Hfailed : failed_units ((λ p, (p, Some (NameError "os"))) <$> chunk_files)
                    = chunk_files)
    by (clear; induction chunk_files; cbn; by f_equal).
  assert (Hnone : succeeded_units ((λ p, (p, Some (NameError "os"))) <$> chunk_files)
                  = [])
    by (clear; induction chunk_files; cbn; done).
  rewrite (process_batches_run _ self fuel chunk_files w _ w0 _ w0 [] Hunits)
    by (by rewrite Hnone).
  by rewrite Hfailed.
Qed.

(** X7. So a run of [process_batches] of the module as it is written, over
    chunk files that are all readable, processes nothing: it sends no
    request, leaves every file as it was, deletes no chunk, and returns
    after the warning that lists every unit as failed (or, on an empty list,
    the notice that all succeeded). *)
Theorem process_batches_as_written (remote : nat → request → reply)
    (self : batch_manager.BatchManager) (fuel : nat) (chunk_files : list string)
    (w : world) :
  (∀ p, p ∈ chunk_files → is_Some (fs w !! p)) →
  let run := batch_manager.process_batches
               (Env batch_manager.module_globals remote) self fuel chunk_files w in
  outcome run = Ret tt ∧
  fs (final run) = fs w ∧
  sent (final run) = sent w ∧
  events run = (chunk_files ≫= name_error_records) ++ [report chunk_files].
Proof.
  intros Hreadable run. subst run.
  rewrite process_batches_unbound by done.
  destruct (ensure_directory_run (batch_manager.output_dir self) w) as [_ Hfs].
  destruct (ensure_directory_frame (batch_manager.output_dir self) w) as [Hsent _].
  by split_and!.
Qed.

(** X7 on two chunk files and a remote that would accept them. *)
Lemma process_batches_as_written_witness :
  let E := Env batch_manager.module_globals
             (scripted [ok_json [("id", JStr "file_1")]; ok_json [("id", JStr "batch_1")]]) in
  let self := batch_manager.Build_BatchManager "key" "/v1/completions" "24h" "out" 0 in
  let w := World {[ "c1.jsonl" := ["{}"]; "c2.jsonl" := ["{}"] ]} ∅ 0 1 in
  let run := batch_manager.process_batches E self 5 ["c1.jsonl"; "c2.jsonl"] w in
  outcome run = Ret tt ∧ fs (final run) = fs w ∧ sent (final run) = 0%nat.
Proof.
  intros E self w run.
  destruct (process_batches_as_written
              (scripted [ok_json [("id", JStr "file_1")]; ok_json [("id", JStr "batch_1")]])
              self 5 ["c1.jsonl"; "c2.jsonl"] w) as (Hret & Hfs & Hsent & _).
  - intros p Hp. apply elem_of_cons in Hp as [->|Hp]; [by eexists |].
    apply list_elem_of_singleton in Hp as ->. by eexists.
  - by split_and!.
Defined.

(** ** Cleanup and directories *)

(** X8. [clean_up_files] is best effort: it always returns; afterwards none
    of the listed paths holds a file and every other file is as it was; it
    writes one record per listed path, and when the paths are pairwise
    distinct the record of a path is its deletion if the file was there and
    the failure to delete it if not, a failure stopping nothing. *)
Theorem clean_up_files_best_effort (file_paths : list string) (w : world) :
  ∃ w' es,
    utils.clean_up_files file_paths w = (Ret tt, w', es) ∧
    (∀ path, fs w' !! path
             = if bool_decide (path ∈ file_paths) then None else fs w !! path) ∧
    dirs w' = dirs w ∧ sent w' = sent w ∧ clients w' = clients w ∧
    length es = length file_paths ∧
    (NoDup file_paths → es = cleanup_record (fs w) <$> file_paths).
Proof.
  revert w. induction file_paths as [|file_path rest IH]; intros w.
  { exists w, []. by split_and!. }
  cbn [utils.clean_up_files].
  assert (∃ w1,
            try_except (os_remove file_path ;;; log INFO (MsgDeleted file_path))
              (λ e, log ERROR (MsgDeleteFailed file_path e)) w
            = (Ret tt, w1, [cleanup_record (fs w) file_path]) ∧
            fs w1 = delete file_path (fs w) ∧
            dirs w1 = dirs w ∧ sent w1 = sent w ∧ clients w1 = clients w)
    as (w1 & Hstep & Hfs & Hdirs & Hsent & Hclients).
  { unfold try_except, bind, os_remove, log, emit, cleanup_record.
    destruct (fs w !! file_path) eqn:Hfile; cbn.
    - by eexists.
    - eexists. split_and!; try done. by rewrite delete_id. }
  destruct (IH w1) as (w' & es & Hrest & Hfs' & Hdirs' & Hsent' & Hclients' & Hlen & Hrecords).
  exists w', (cleanup_record (fs w) file_path :: es). split_and!.
  - rewrite (bind_Ret _ _ _ _ _ _ Hstep), Hrest. done.
  - intros path. rewrite Hfs', Hfs.
    destruct (decide (path = file_path)) as [->|Hne].
    + rewrite lookup_delete_eq.
      rewrite (bool_decide_true (file_path ∈ file_path :: rest)) by left.
      by destruct (bool_decide (file_path ∈ rest)).
    + rewrite lookup_delete_ne by done.
      rewrite (bool_decide_ext (path ∈ file_path :: rest) (path ∈ rest)); [done |].
      rewrite elem_of_cons. split; [by intros [?|?] | by right].
  - congruence.
  - congruence.
  - congruence.
  - cbn. by rewrite Hlen.
  - intros Hdistinct. apply NoDup_cons in Hdistinct as [Hfresh Hdistinct].
    cbn. f_equal. rewrite (Hrecords Hdistinct).
    apply list_fmap_ext. intros i path Hpath. unfold cleanup_record.
    rewrite Hfs, lookup_delete_ne; [done |].
    intros ->. apply Hfresh. by eapply list_elem_of_lookup_2.
Qed.

Lemma ensure_directory_world (path : string) (w : world) :
  let w1 := final (utils.ensure_directory path w) in
  fs w1 = fs w ∧ clients w1 = clients w ∧
  (dirs w1 = dirs w ∨ dirs w1 = {[path]} ∪ dirs w).
Proof.
  unfold utils.ensure_directory, bind, os_path_exists, os_makedirs, final.
  destruct (_ || _); cbn; auto.
Qed.


(** ** More on the Chunker *)

Lemma mod_opp_zero (a k : Z) : (a mod - k =? 0) = (a mod k =? 0).
Proof.
  destruct (Z.eq_dec k 0) as [->|Hk]; [done |].
  destruct (Z.eqb_spec (a mod k) 0) as [H0|Hne].
  - apply Z.eqb_eq. by apply Z.mod_opp_r_z.
  - apply Z.eqb_neq. intros H0. apply Hne.
    rewrite <- (Z.opp_involutive k). apply Z.mod_opp_r_z; [lia | done].
Qed.

Lemma bind_py_mod_opp {A : Type} (a k : Z) (f g : Z → M A) (w : world) :
  (∀ r1 r2, (r1 =? 0) = (r2 =? 0) → f r1 w = g r2 w) →
  bind (utils.py_mod a (- k)) f w = bind (utils.py_mod a k) g w.
Proof.
  intros Hfg. unfold bind, utils.py_mod.
  replace (- k =? 0) with (k =? 0)
    by (destruct (Z.eqb_spec k 0), (Z.eqb_spec (- k) 0); lia || done).
  destruct (k =? 0); [done |].
  cbn [ret]. by rewrite (Hfg (a mod - k) (a mod k) (mod_opp_zero a k)).
Qed.

Lemma bind_ext {A B : Type} (m : M A) (f g : A → M B) (w : world) :
  (∀ a w1, f a w1 = g a w1) → bind m f w = bind m g w.
Proof.
  intros Hfg. unfold bind. destruct (m w) as [[[a|e|] w1] e1]; [| done | done].
  by rewrite Hfg.
Qed.

Lemma split_loop_opp (input_file : string) (k : Z) (lines : list string)
    (line_number : Z) (s : utils.split_state) (w : world) :
  utils.split_loop input_file (- k) lines line_number s w
  = utils.split_loop input_file k lines line_number s w.
Proof.
  revert line_number s w. induction lines as [|line rest IH]; intros line_number s w;
    [done |].
  cbn [utils.split_loop]. apply bind_py_mod_opp. intros r1 r2 ->.
  apply bind_ext. intros s1 w1. apply IH.
Qed.

(** X10. A negative chunk size splits like its absolute value: the test
    [line_number % chunk_size == 0] holds at the same lines for [-k] and
    [k], so [split_jsonl_file] writes the same chunks and returns the same
    list, and no error is raised for a negative size. *)
Theorem split_jsonl_file_negative_size (input_file : string) (k : Z) (w : world) :
  utils.split_jsonl_file input_file (- k) w = utils.split_jsonl_file input_file k w.
Proof.
  unfold utils.split_jsonl_file.
  apply bind_ext. intros infile w1. unfold bind at 1 3. by rewrite split_loop_opp.
Qed.

(** ** What a run leaves alone

    The files of these statements are the files of the world: the chunks, the
    results and whatever else the paths hold.  The log file, to which the
    handler appends every record, is the stream of records and is not among
    them. *)

Global Instance same_preorder {A : Type} (f : world → A) : PreOrder (same f).
Proof.
  split; [by intros w | intros w1 w2 w3 H12 H23; unfold same in *; congruence].
Qed.

Global Instance sent_grows_preorder : PreOrder sent_grows.
Proof.
  split; [by intros w; unfold sent_grows | intros w1 w2 w3 H12 H23; unfold sent_grows in *; lia].
Qed.

Global Instance unchanged_outside_preorder (Q : string → Prop) :
  PreOrder (unchanged_outside Q).
Proof.
  split; [by intros w path |]. intros w1 w2 w3 H12 H23 path Hpath.
  by rewrite (H23 path Hpath), (H12 path Hpath).
Qed.

Lemma unchanged_outside_write (Q : string → Prop) path c w :
  Q path →
  unchanged_outside Q w (World (<[path := c]> (fs w)) (dirs w) (sent w) (clients w)).
Proof.
  intros HQ q Hq. cbn. apply lookup_insert_ne. by intros ->.
Qed.

Lemma unchanged_outside_delete (Q : string → Prop) path w :
  Q path →
  unchanged_outside Q w (World (delete path (fs w)) (dirs w) (sent w) (clients w)).
Proof.
  intros HQ q Hq. cbn. apply lookup_delete_ne. by intros ->.
Qed.

Lemma chunk_filename_not_input (input_file : string) :
  ¬ is_chunk_of input_file input_file.
Proof.
  intros [i Hi]. apply (f_equal String.length) in Hi.
  unfold utils.chunk_filename in Hi. rewrite !string_length_app in Hi.
  cbn in Hi. lia.
Qed.

Lemma Forall_False_nil {A : Type} (l : list A) : Forall (λ _, False) l → l = [].
Proof. by destruct 1. Qed.

Section split_frame.

Context (R : relation world) `{!PreOrder R} (P : event → Prop).
Context (input_file : string).
Hypothesis R_write_chunk : ∀ i c w,
  R w (World (<[utils.chunk_filename input_file i := c]> (fs w))
         (dirs w) (sent w) (clients w)).

Lemma split_loop_writes_chunks chunk_size lines line_number s :
  keeps R P (utils.split_loop input_file chunk_size lines line_number s).
Proof.
  revert line_number s. induction lines as [|line rest IH]; intros line_number s;
    cbn [utils.split_loop]; [keeps_auto |].
  keeps_step; [keeps_auto | intros r].
  keeps_step; [| intros s1; apply IH].
  destruct (r =? 0); keeps_auto.
Qed.

Lemma split_jsonl_file_writes_chunks chunk_size :
  keeps R P (utils.split_jsonl_file input_file chunk_size).
Proof.
  unfold utils.split_jsonl_file.
  keeps_step; [keeps_auto | intros infile].
  keeps_step; [apply split_loop_writes_chunks | intros s].
  destruct (bool_decide _); keeps_auto.
Qed.

End split_frame.

(** X11. Whatever the chunk size and whether it returns or raises,
    [split_jsonl_file] writes chunk files of its input and nothing else:
    every file whose path is not a chunk name of the input is as it was,
    the input file among them; it creates no directory, sends no request,
    opens no client and writes no record. *)
Theorem split_jsonl_file_frame (input_file : string) (chunk_size : Z) (w : world) :
  let run := utils.split_jsonl_file input_file chunk_size w in
  (∀ path, ¬ is_chunk_of input_file path → fs (final run) !! path = fs w !! path) ∧
  fs (final run) !! input_file = fs w !! input_file ∧
  dirs (final run) = dirs w ∧ sent (final run) = sent w ∧
  clients (final run) = clients w ∧
  events run = [].
Proof.
  intros run. subst run.
  destruct (split_jsonl_file_writes_chunks (unchanged_outside (is_chunk_of input_file))
              (λ _, False) input_file
              (λ i c w, unchanged_outside_write _ _ c w (ex_intro _ i eq_refl))
              chunk_size w) as [Hfs Hevents].
  destruct (split_jsonl_file_writes_chunks (same dirs) (λ _, True) input_file
              (λ _ _ _, eq_refl) chunk_size w) as [Hdirs _].
  destruct (split_jsonl_file_writes_chunks (same sent) (λ _, True) input_file
              (λ _ _ _, eq_refl) chunk_size w) as [Hsent _].
  destruct (split_jsonl_file_writes_chunks (same clients) (λ _, True) input_file
              (λ _ _ _, eq_refl) chunk_size w) as [Hclients _].
  split_and!; try done.
  - apply Hfs, chunk_filename_not_input.
  - by apply Forall_False_nil.
Qed.

Section unit_frame.

Context (E : env) (self : batch_manager.BatchManager) (fuel : nat).
Context (R : relation world) `{!PreOrder R}.
Hypothesis R_bump : ∀ w, R w (bump w).
Hypothesis R_write_results : ∀ batch_id c w,
  R w (World (<[batch_manager.results_file self batch_id := c]> (fs w))
         (dirs w) (sent w) (clients w)).

Lemma process_batch_writes_results chunk_file :
  keeps R (λ _, True) (batch_manager.process_batch E self fuel chunk_file).
Proof.
  unfold batch_manager.process_batch, batch_manager.poll_and_download.
  keeps_step; [| keeps_auto].
  keeps_step; [keeps_auto | intros file_id].
  keeps_step; [keeps_auto | intros batch_id].
  keeps_step; [by apply poll_loop_keeps | intros status].
  destruct (eq_str status "succeeded"); keeps_auto.
Qed.

Context (Qd : string → Prop).
Hypothesis R_delete : ∀ path w,
  Qd path → R w (World (delete path (fs w)) (dirs w) (sent w) (clients w)).

Lemma process_loop_frame chunk_files failed processed w :
  (∀ path, path ∈ processed ++ chunk_files → Qd path) →
  let run := batch_manager.process_loop E self fuel chunk_files failed processed w in
  R w (final run) ∧
  ∀ acc, outcome run = Ret acc → ∀ path, path ∈ acc.2 → Qd path.
Proof.
  revert failed processed w.
  induction chunk_files as [|chunk_file rest IH]; intros failed processed w HQd run;
    subst run.
  { cbn. split; [done |]. intros acc [= <-] path Hpath. apply HQd.
    by rewrite app_nil_r. }
  cbn [batch_manager.process_loop].
  destruct (process_batch_writes_results chunk_file w) as [Hunit _].
  unfold bind at 1, try_except, bind at 1, log, emit, bind.
  destruct (batch_manager.process_batch E self fuel chunk_file w) as [[[[]|e|] w1] e1];
    cbn in Hunit |- *.
  - destruct (IH failed (processed ++ [chunk_file]) w1) as [HR Hacc].
    { intros path. rewrite <- app_assoc. apply HQd. }
    destruct (batch_manager.process_loop E self fuel rest failed
                (processed ++ [chunk_file]) w1) as [[r w2] e2].
    cbn in *. split; [by etrans | done].
  - destruct (IH (failed ++ [chunk_file]) processed w1) as [HR Hacc].
    { intros path Hpath. apply HQd. rewrite elem_of_app in Hpath.
      rewrite elem_of_app, elem_of_cons. tauto. }
    destruct (batch_manager.process_loop E self fuel rest (failed ++ [chunk_file])
                processed w1) as [[r w2] e2].
    cbn in *. split; [by etrans | done].
  - done.
Qed.

Lemma clean_up_files_frame file_paths w :
  (∀ path, path ∈ file_paths → Qd path) →
  R w (final (utils.clean_up_files file_paths w)).
Proof.
  revert w. induction file_paths as [|file_path rest IH]; intros w HQd; [done |].
  cbn [utils.clean_up_files].
  unfold bind at 1, try_except, bind, os_remove, log, emit.
  destruct (fs w !! file_path); cbn.
  - match goal with |- context [utils.clean_up_files rest ?w1] =>
      specialize (IH w1 (λ path H, HQd path (list_elem_of_further _ _ _ H)));
      destruct (utils.clean_up_files rest w1) as [[r w2] e2] end.
    cbn in *. etrans; [| done]. apply R_delete, HQd. left.
  - specialize (IH w (λ path H, HQd path (list_elem_of_further _ _ _ H))).
    by destruct (utils.clean_up_files rest w) as [[r w2] e2].
Qed.

End unit_frame.

(** X12. Whether it returns, raises or is still polling, [process_batch]
    changes no file other than a results file of its own output directory:
    in particular it leaves the chunk file it was given and every other
    chunk file as they were; it creates no directory and no client, and the
    count of requests sent never goes down. *)
Theorem process_batch_frame (E : env) (self : batch_manager.BatchManager)
    (fuel : nat) (chunk_file : string) (w : world) :
  let run := batch_manager.process_batch E self fuel chunk_file w in
  (∀ path, ¬ is_results_file self path → fs (final run) !! path = fs w !! path) ∧
  dirs (final run) = dirs w ∧ clients (final run) = clients w ∧
  (sent w ≤ sent (final run))%nat.
Proof.
  intros run. subst run. split_and!.
  - by destruct (process_batch_writes_results E self fuel
                   (unchanged_outside (is_results_file self))
                   (λ w path H, eq_refl)
                   (λ b c w, unchanged_outside_write _ _ c w (ex_intro _ b eq_refl))
                   chunk_file w).
  - by destruct (process_batch_writes_results E self fuel (same dirs)
                   (λ _, eq_refl) (λ _ _ _, eq_refl) chunk_file w).
  - by destruct (process_batch_writes_results E self fuel (same clients)
                   (λ _, eq_refl) (λ _ _ _, eq_refl) chunk_file w).
  - by destruct (process_batch_writes_results E self fuel sent_grows
                   (λ w, Nat.le_succ_diag_r (sent w)) (λ _ _ w, Nat.le_refl (sent w))
                   chunk_file w).
Qed.

Section run_frame.

Context (E : env) (self : batch_manager.BatchManager) (fuel : nat).
Context (R : relation world) `{!PreOrder R}.
Hypothesis R_bump : ∀ w, R w (bump w).
Hypothesis R_write_results : ∀ batch_id c w,
  R w (World (<[batch_manager.results_file self batch_id := c]> (fs w))
         (dirs w) (sent w) (clients w)).
Context (chunk_files : list string).
Hypothesis R_delete : ∀ path w,
  path ∈ chunk_files →
  R w (World (delete path (fs w)) (dirs w) (sent w) (clients w)).

Lemma process_batches_after_ensure (w : world) :
  R (final (utils.ensure_directory (batch_manager.output_dir self) w))
    (final (batch_manager.process_batches E self fuel chunk_files w)).
Proof.
  unfold batch_manager.process_batches.
  destruct (ensure_directory_run (batch_manager.output_dir self) w) as [Hensure _].
  rewrite (bind_Ret _ _ _ _ _ _ Hensure), prepend_nil.
  set (w1 := final _).
  destruct (process_loop_frame E self fuel R R_bump R_write_results
              (λ path, path ∈ chunk_files) chunk_files [] [] w1
              (λ path H, H)) as [Hloop Hprocessed].
  unfold bind at 1.
  destruct (batch_manager.process_loop E self fuel chunk_files [] [] w1)
    as [[[acc|e|] w2] e2]; cbn in Hloop, Hprocessed |- *; [| done | done].
  pose proof (clean_up_files_frame R (λ path, path ∈ chunk_files) R_delete
                acc.2 w2 (Hprocessed acc eq_refl)) as Hclean.
  unfold bind at 1.
  destruct (utils.clean_up_files acc.2 w2) as [[[[]|e|] w3] e3]; cbn in Hclean |- *.
  - etrans; [done |].
    destruct (bool_decide (acc.1 ≠ [])); cbn; by rewrite ?app_nil_r.
  - by etrans.
  - by etrans.
Qed.

End run_frame.

(** X13. [process_batches] touches only its own files: a file that is
    neither one of the given chunk files nor a results file of the output
    directory is as it was, whether the run ends or is still polling; no
    client is created; and the directories are those [ensure_directory] left
    when it was called on the output directory at the start. *)
Theorem process_batches_frame (E : env) (self : batch_manager.BatchManager)
    (fuel : nat) (chunk_files : list string) (w : world) :
  let run := batch_manager.process_batches E self fuel chunk_files w in
  (∀ path, ¬ is_results_file self path → path ∉ chunk_files →
           fs (final run) !! path = fs w !! path) ∧
  clients (final run) = clients w ∧
  dirs (final run)
  = dirs (final (utils.ensure_directory (batch_manager.output_dir self) w)).
Proof.
  intros run. subst run.
  destruct (ensure_directory_world (batch_manager.output_dir self) w)
    as (Hfs & Hclients & _).
  split_and!.
  - intros path Hresults Hchunk.
    pose proof (process_batches_after_ensure E self fuel
                  (unchanged_outside (λ p, is_results_file self p ∨ p ∈ chunk_files))
                  (λ w path H, eq_refl)
                  (λ b c w, unchanged_outside_write _ _ c w
                              (or_introl (ex_intro _ b eq_refl)))
                  chunk_files
                  (λ p w Hp, unchanged_outside_delete _ p w (or_intror Hp)) w)
      as Hframe.
    rewrite (Hframe path); [by rewrite Hfs | tauto].
  - rewrite <- Hclients.
    apply (process_batches_after_ensure E self fuel (same clients)
             (λ _, eq_refl) (λ _ _ _, eq_refl) chunk_files (λ _ _ _, eq_refl) w).
  - apply (process_batches_after_ensure E self fuel (same dirs)
             (λ _, eq_refl) (λ _ _ _, eq_refl) chunk_files (λ _ _ _, eq_refl) w).
Qed.

(** ** Runs with nothing to process *)

Lemma split_jsonl_file_missing (input_file : string) (chunk_size : Z) (w : world) :
  fs w !! input_file = None →
  utils.split_jsonl_file input_file chunk_size w
  = (Raise (FileNotFoundError input_file), w, []).
Proof.
  intros Hmissing. unfold utils.split_jsonl_file, bind, open_read.
  by rewrite Hmissing.
Qed.

Lemma split_jsonl_file_empty (input_file : string) (chunk_size : Z) (w : world) :
  fs w !! input_file = Some [] →
  utils.split_jsonl_file input_file chunk_size w = (Ret [], w, []).
Proof.
  intros Hempty. unfold utils.split_jsonl_file, bind, open_read.
  by rewrite Hempty.
Qed.

Lemma split_jsonl_file_zero_size (input_file : string) (w : world) line lines :
  fs w !! input_file = Some (line :: lines) →
  utils.split_jsonl_file input_file 0 w = (Raise ZeroDivisionError, w, []).
Proof.
  intros Hlines. unfold utils.split_jsonl_file, bind, open_read.
  by rewrite Hlines.
Qed.

(** X14. A run of [run_batch_processing] on a missing input file, on an
    empty one, or on a non-empty one with chunk size zero ends before any
    unit is processed: it returns normally, having sent no request and
    changed no file or directory, and its records are the opening of the
    client, the notice of splitting, then the caught [FileNotFoundError],
    or the chunk count 0 and the warning that no chunks were created, or the
    caught [ZeroDivisionError], and last the closing of the client. *)
Theorem run_without_chunks (E : env) (API_KEY : string) (fuel : nat)
    (input_file output_dir : string) (chunk_size : Z)
    (completion_window endpoint : string) (w : world) (es : list event) :
  early_end input_file chunk_size w = Some es →
  cli.run_batch_processing E API_KEY fuel input_file output_dir chunk_size
    completion_window endpoint w
  = (Ret tt, World (fs w) (dirs w) (sent w) (S (clients w)),
     [EvClientOpen (clients w); EvLog INFO MsgSplitting] ++ es
     ++ [EvClientClose (clients w)]).
Proof.
  unfold early_end, cli.run_batch_processing. intros Hearly.
  erewrite bind_Ret; [| reflexivity].
  set (w0 := World _ _ _ _).
  destruct (fs w !! input_file) as [[|line lines]|] eqn:Hfile.
  - injection Hearly as <-.
    unfold try_finally, try_except, log. rewrite bind_emit. unfold prepend.
    erewrite bind_Ret; [| by apply split_jsonl_file_empty].
    done.
  - destruct (Z.eqb_spec chunk_size 0) as [->|]; [| done].
    injection Hearly as <-.
    unfold try_finally, try_except, log. rewrite bind_emit. unfold prepend.
    erewrite bind_Raise; [| by eapply split_jsonl_file_zero_size].
    done.
  - injection Hearly as <-.
    unfold try_finally, try_except, log. rewrite bind_emit. unfold prepend.
    erewrite bind_Raise; [| by apply split_jsonl_file_missing].
    done.
Qed.

(** X14 on an input path that holds no file. *)
Lemma run_without_chunks_witness :
  let E := Env batch_manager.module_globals (scripted []) in
  cli.run_batch_processing E "key" 10 "in.jsonl" "out" 100 "24h" "/v1/completions"
    (World ∅ ∅ 0 0)
  = (Ret tt, World ∅ ∅ 0 1,
     [EvClientOpen 0; EvLog INFO MsgSplitting;
      EvLog ERROR (MsgRunError (FileNotFoundError "in.jsonl"));
      EvClientClose 0]).
Proof.
  intros E.
  apply (run_without_chunks E "key" 10 "in.jsonl" "out" 100 "24h" "/v1/completions"
           (World ∅ ∅ 0 0)
           [EvLog ERROR (MsgRunError (FileNotFoundError "in.jsonl"))]).
  reflexivity.
Defined.

(** ** The JSONL helpers *)

Section jsonl.

Import jsonl_helper.

Context (L : library).

Lemma validate_loop_run (lines : list string) (line_number : Z) (fs : gmap string (list string)) :
  validate_loop L lines line_number fs
  = match first_invalid L lines with
    | Some (i, _) =>
        (Ret (Some false), fs,
         [Log ERROR (MsgInvalidJSON (line_number + Z.of_nat i) JSONDecodeError)])
    | None => (Ret None, fs, [])
    end.
Proof.
  revert line_number. induction lines as [|line rest IH]; intros line_number; [done |].
  cbn [validate_loop]. unfold first_invalid in *. cbn [list_find].
  unfold io_bind at 1, io_try, loads.
  destruct (decide (¬ is_Some (json_loads L line))) as [Hbad|Hgood].
  - destruct (json_loads L line) as [v|] eqn:Hline.
    + exfalso. apply Hbad. by eexists.
    + cbn. by rewrite Z.add_0_r.
  - destruct (json_loads L line) as [v|] eqn:Hline.
    + cbn. rewrite IH.
      destruct (list_find _ rest) as [[i bad]|]; cbn; [| done].
      do 4 f_equal. lia.
    + exfalso. apply Hgood. by intros [v Hv].
Qed.

Lemma first_invalid_none (lines : list string) :
  first_invalid L lines = None ↔ Forall (λ line, is_Some (json_loads L line)) lines.
Proof.
  unfold first_invalid. rewrite list_find_None.
  apply Forall_iff. intros line. split; [apply dec_stable | by intros ? ?].
Qed.

Lemma write_rows_run (jsonl_file : string) (rows : list pydict) (fs : gmap string (list string)) old :
  fs !! jsonl_file = Some old →
  write_rows L jsonl_file rows fs
  = (Ret tt, <[jsonl_file := old ++ (line_of L <$> rows)]> fs, []).
Proof.
  revert fs old. induction rows as [|row rest IH]; intros fs old Hold.
  { rewrite fmap_nil, app_nil_r, insert_id by done. done. }
  cbn [write_rows]. unfold io_bind, write at 1. rewrite Hold. cbn [default].
  rewrite (IH _ (old ++ [json_dumps L row +:+ LF])) by apply lookup_insert_eq.
  rewrite insert_insert_eq, <- app_assoc. done.
Qed.

Lemma create_jsonl_manual_run (jsonl_file : string) (records : list pydict)
    (fs : gmap string (list string)) :
  create_jsonl_manual L jsonl_file records fs
  = (Ret tt, <[jsonl_file := line_of L <$> records]> fs,
     [Log INFO (MsgCreating jsonl_file); Log INFO (MsgCreated jsonl_file)]).
Proof.
  unfold create_jsonl_manual, io_bind at 1, logger at 1, io_try.
  unfold io_bind at 1, open_w. unfold io_bind at 1.
  rewrite (write_rows_run jsonl_file records _ []) by apply lookup_insert_eq.
  cbn. by rewrite insert_insert_eq.
Qed.

Lemma validate_jsonl_run (jsonl_file : string) (fs : gmap string (list string)) :
  validate_jsonl L jsonl_file fs
  = match fs !! jsonl_file with
    | None =>
        (Raise (FileNotFoundError jsonl_file), fs,
         [Log INFO (MsgValidating jsonl_file);
          Log ERROR (MsgValidateError (FileNotFoundError jsonl_file))])
    | Some lines =>
        match first_invalid L lines with
        | Some (i, _) =>
            (Ret false, fs,
             [Log INFO (MsgValidating jsonl_file);
              Log ERROR (MsgInvalidJSON (Z.of_nat i + 1) JSONDecodeError)])
        | None =>
            (Ret true, fs,
             [Log INFO (MsgValidating jsonl_file); Log INFO (MsgValid jsonl_file)])
        end
    end.
Proof.
  unfold validate_jsonl, io_bind at 1, logger at 1, io_try.
  unfold io_bind at 1, open_r.
  destruct (fs !! jsonl_file) as [lines|] eqn:Hfile; [| done].
  unfold io_bind at 1, read_lines. rewrite Hfile.
  change (default [] (Some lines)) with lines.
  unfold io_bind at 1. rewrite validate_loop_run.
  destruct (first_invalid L lines) as [[i bad]|]; [| done].
  cbn. by rewrite (Z.add_comm 1).
Qed.

End jsonl.

(** X15. [validate_jsonl] gives its verdict on a file that is there and
    raises on one that is not: it returns [True] exactly when the file
    exists and [json.loads] accepts every line; at the first line it
    rejects it logs that line's number, counted from 1, and returns [False]
    without reading further; on a missing file it logs the error and raises
    [FileNotFoundError] instead of returning [False].  It changes no
    file. *)
Theorem validate_jsonl_outcomes (L : jsonl_helper.library) (jsonl_file : string)
    (fs : gmap string (list string)) :
  let run := jsonl_helper.validate_jsonl L jsonl_file fs in
  run.1.2 = fs ∧
  (run.1.1 = Ret true ↔
   ∃ lines, fs !! jsonl_file = Some lines ∧
            Forall (λ line, is_Some (jsonl_helper.json_loads L line)) lines) ∧
  (∀ lines good bad rest,
     fs !! jsonl_file = Some lines → lines = good ++ bad :: rest →
     Forall (λ line, is_Some (jsonl_helper.json_loads L line)) good →
     jsonl_helper.json_loads L bad = None →
     run = (Ret false, fs,
            [jsonl_helper.Log INFO (jsonl_helper.MsgValidating jsonl_file);
             jsonl_helper.Log ERROR
               (jsonl_helper.MsgInvalidJSON (Z.of_nat (length good) + 1)
                  JSONDecodeError)])) ∧
  (fs !! jsonl_file = None →
   run = (Raise (FileNotFoundError jsonl_file), fs,
          [jsonl_helper.Log INFO (jsonl_helper.MsgValidating jsonl_file);
           jsonl_helper.Log ERROR
             (jsonl_helper.MsgValidateError (FileNotFoundError jsonl_file))])).
Proof.
  intros run. subst run. rewrite validate_jsonl_run. split_and!.
  - destruct (fs !! jsonl_file) as [lines|]; [| done].
    by destruct (first_invalid L lines) as [[i bad]|].
  - destruct (fs !! jsonl_file) as [lines|]; [| split; [done | by intros (? & ? & ?)]].
    destruct (first_invalid L lines) as [[i bad]|] eqn:Hfirst; cbn.
    + split; [done |]. intros (lines' & [= <-] & Hall).
      apply first_invalid_none in Hall. congruence.
    + split; [| done]. intros _. exists lines. split; [done |].
      by apply first_invalid_none.
  - intros lines good bad rest -> -> Hgood Hbad.
    assert (first_invalid L (good ++ bad :: rest) = Some (length good, bad)) as ->;
      [| done].
    unfold first_invalid. apply list_find_Some. split_and!.
    + by apply list_lookup_middle.
    + rewrite Hbad. by intros [v Hv].
    + intros j line Hline Hj Hnot. apply Hnot.
      rewrite lookup_app_l in Hline by done.
      by apply (Forall_lookup_1 _ _ _ _ Hgood Hline).
  - by intros ->.
Qed.

(** X15 on a file whose second line does not load. *)
Lemma validate_jsonl_outcomes_witness :
  let fs : gmap string (list string) := {[ "data.jsonl" := ["{}"; "oops"; "{}"] ]} in
  jsonl_helper.validate_jsonl braces "data.jsonl" fs
  = (Ret false, fs,
     [jsonl_helper.Log INFO (jsonl_helper.MsgValidating "data.jsonl");
      jsonl_helper.Log ERROR (jsonl_helper.MsgInvalidJSON 2 JSONDecodeError)]).
Proof.
  intros fs.
  apply (proj1 (proj2 (proj2 (validate_jsonl_outcomes braces "data.jsonl" fs)))
           ["{}"; "oops"; "{}"] ["{}"] "oops" ["{}"]).
  - reflexivity.
  - reflexivity.
  - repeat constructor. by eexists.
  - reflexivity.
Defined.

(** X16. A file written by [create_jsonl_manual] holds one line per record,
    the dump of the record and a line break, in the order of the records,
    and replaces what the path held; when [json.loads] accepts each of
    these lines, [validate_jsonl] on the file returns [True]. *)
Theorem create_then_validate (L : jsonl_helper.library) (jsonl_file : string)
    (records : list jsonl_helper.pydict) (fs : gmap string (list string)) :
  (∀ record, record ∈ records →
             is_Some (jsonl_helper.json_loads L (line_of L record))) →
  let fs1 := <[jsonl_file := line_of L <$> records]> fs in
  jsonl_helper.create_jsonl_manual L jsonl_file records fs
  = (Ret tt, fs1,
     [jsonl_helper.Log INFO (jsonl_helper.MsgCreating jsonl_file);
      jsonl_helper.Log INFO (jsonl_helper.MsgCreated jsonl_file)]) ∧
  jsonl_helper.validate_jsonl L jsonl_file fs1
  = (Ret true, fs1,
     [jsonl_helper.Log INFO (jsonl_helper.MsgValidating jsonl_file);
      jsonl_helper.Log INFO (jsonl_helper.MsgValid jsonl_file)]).
Proof.
  intros Hloads fs1. split; [apply create_jsonl_manual_run |].
  rewrite validate_jsonl_run. subst fs1. rewrite lookup_insert_eq.
  assert (first_invalid L (line_of L <$> records) = None) as ->; [| done].
  apply first_invalid_none, Forall_fmap, Forall_forall. intros record Hrecord.
  by apply Hloads.
Qed.

(** X16 on two records. *)
Lemma create_then_validate_witness :
  let fs1 : gmap string (list string) := {[ "new.jsonl" := ["{}" +:+ jsonl_helper.LF;
                                                     "{}" +:+ jsonl_helper.LF] ]} in
  jsonl_helper.validate_jsonl braces "new.jsonl" fs1
  = (Ret true, fs1,
     [jsonl_helper.Log INFO (jsonl_helper.MsgValidating "new.jsonl");
      jsonl_helper.Log INFO (jsonl_helper.MsgValid "new.jsonl")]).
Proof.
  intros fs1.
  refine (proj2 (create_then_validate braces "new.jsonl"
                   [[("a", "1")]; [("b", "2")]] ∅ _)).
  intros record _. by eexists.
Defined.

Section records.

Import jsonl_helper.

Lemma setitem_to_map (d : pydict) (key value : string) :
  (list_to_map (cli_jsonl.setitem d key value) : gmap string string)
  = <[key := value]> (list_to_map d).
Proof.
  induction d as [|[k v] rest IH]; [done |].
  cbn [cli_jsonl.setitem]. case_bool_decide as Hk.
  - subst k. cbn [list_to_map foldr uncurry]. by rewrite insert_insert_eq.
  - cbn [list_to_map foldr uncurry]. cbn [list_to_map] in IH. rewrite IH.
    by apply insert_insert_ne.
Qed.

Lemma setitem_keys (d : pydict) (key value : string) :
  NoDup d.*1 → NoDup (cli_jsonl.setitem d key value).*1.
Proof.
  assert (Hkeys : ∀ d k, k ∈ (cli_jsonl.setitem d key value).*1 → k = key ∨ k ∈ d.*1).
  { clear d. intros d k. induction d as [|[k' v'] rest IH]; cbn [cli_jsonl.setitem].
    - rewrite fmap_cons, elem_of_cons. cbn. tauto.
    - case_bool_decide; rewrite !fmap_cons, !elem_of_cons; cbn; [tauto |].
      intros [?|?]; [tauto |]. destruct IH; tauto. }
  induction d as [|[k v] rest IH]; intros Hd; cbn [cli_jsonl.setitem].
  - apply NoDup_singleton.
  - rewrite fmap_cons in Hd. apply NoDup_cons in Hd as [Hk Hrest]. cbn in Hk.
    case_bool_decide as Hkey; rewrite fmap_cons; apply NoDup_cons; cbn.
    + done.
    + split; [| by apply IH]. intros Hin.
      destruct (Hkeys rest k Hin); [congruence | done].
Qed.

Lemma setitem_not_nil (d : pydict) (key value : string) :
  cli_jsonl.setitem d key value ≠ [].
Proof. destruct d as [|[k v] rest]; cbn; [done |]. by case_bool_decide. Qed.

Lemma collect_from (d : pydict) (record : list (string * string)) :
  let current_record :=
    foldl (λ current_record kv, cli_jsonl.setitem current_record kv.1 kv.2) d record in
  (NoDup d.*1 → NoDup current_record.*1) ∧
  (list_to_map current_record : gmap string string) = list_to_map (reverse record ++ d) ∧
  (d ≠ [] ∨ record ≠ [] → current_record ≠ []).
Proof.
  revert d. induction record as [|[key value] rest IH]; intros d; cbn [foldl].
  { split_and!; [done | done | by intros [?|?]]. }
  destruct (IH (cli_jsonl.setitem d key value)) as (Hkeys & Hmap & Hnil).
  cbn [fst snd]. split_and!.
  - intros Hd. by apply Hkeys, setitem_keys.
  - rewrite Hmap, reverse_cons, <- app_assoc, !list_to_map_app, setitem_to_map.
    f_equal.
    change (list_to_map [(key, value)])
      with (<[key := value]> (∅ : gmap string string)).
    by rewrite insert_empty, <- insert_union_singleton_l.
  - intros _. apply Hnil. left. apply setitem_not_nil.
Qed.

End records.

(** X17. The [create-manual] command makes one record of all its
    [--record] pairs, not one record per pair: with no pair it writes an
    empty file and reports 0 records; with at least one pair it writes a
    single line, the dump of a dict in which every key occurs once and has
    the value of the last pair that names it, and reports 1 record. *)
Theorem create_manual_one_record (L : jsonl_helper.library) (jsonl_file : string)
    (record : list (string * string)) (fs : gmap string (list string)) :
  let current_record := cli_jsonl.collect record in
  let n := if record is [] then 0%nat else 1%nat in
  cli_jsonl.create_jsonl_manual_command L jsonl_file record fs
  = (Ret tt,
     <[jsonl_file := if record is [] then [] else [line_of L current_record]]> fs,
     [jsonl_helper.Log INFO (jsonl_helper.MsgCreating jsonl_file);
      jsonl_helper.Log INFO (jsonl_helper.MsgCreated jsonl_file);
      jsonl_helper.Echo false (jsonl_helper.EchoCreated jsonl_file n)]) ∧
  NoDup current_record.*1 ∧
  ∀ key, (list_to_map current_record : gmap string string) !! key
         = (list_to_map (reverse record) : gmap string string) !! key.
Proof.
  intros current_record n. subst current_record n.
  destruct (collect_from [] record) as (Hkeys & Hmap & Hnil).
  fold (cli_jsonl.collect record) in Hkeys, Hmap, Hnil.
  split_and!.
  - unfold cli_jsonl.create_jsonl_manual_command, jsonl_helper.io_bind.
    rewrite create_jsonl_manual_run.
    destruct record as [|pair rest].
    + done.
    + rewrite bool_decide_true by (apply Hnil; by right). done.
  - apply Hkeys. constructor.
  - intros key. by rewrite Hmap, app_nil_r.
Qed.


(** ** The entry point as it is written *)

Lemma ignores_clients_ret {A} (a : A) : ignores_clients (ret a).
Proof. by intros c w. Qed.

Lemma ignores_clients_raise {A} (e : exn) : ignores_clients (@raise A e).
Proof. by intros c w. Qed.

Lemma ignores_clients_bind {A B} (m : M A) (f : A → M B) :
  ignores_clients m → (∀ a, ignores_clients (f a)) → ignores_clients (bind m f).
Proof.
  intros Hm Hf c w. unfold bind. rewrite Hm.
  destruct (m w) as [[[a|e|] w1] e1]; cbn; [| done | done].
  rewrite Hf. by destruct (f a w1) as [[r w2] e2].
Qed.

Lemma ignores_clients_open_read path : ignores_clients (open_read path).
Proof. intros c w. unfold open_read. cbn. by destruct (fs w !! path). Qed.

Lemma ignores_clients_open_write path content :
  ignores_clients (open_write path content).
Proof. by intros c w. Qed.

Lemma ignores_clients_py_mod a b : ignores_clients (utils.py_mod a b).
Proof. intros c w. unfold utils.py_mod. by destruct (b =? 0). Qed.

Lemma split_loop_ignores_clients input_file chunk_size lines line_number s :
  ignores_clients (utils.split_loop input_file chunk_size lines line_number s).
Proof.
  revert line_number s. induction lines as [|line rest IH]; intros line_number s;
    cbn [utils.split_loop]; [apply ignores_clients_ret |].
  apply ignores_clients_bind; [apply ignores_clients_py_mod | intros r].
  apply ignores_clients_bind; [| intros s1; apply IH].
  destruct (r =? 0); [| apply ignores_clients_ret].
  apply ignores_clients_bind; [apply ignores_clients_open_write | intros _].
  apply ignores_clients_ret.
Qed.

Lemma split_jsonl_file_ignores_clients input_file chunk_size :
  ignores_clients (utils.split_jsonl_file input_file chunk_size).
Proof.
  unfold utils.split_jsonl_file.
  apply ignores_clients_bind; [apply ignores_clients_open_read | intros infile].
  apply ignores_clients_bind; [apply split_loop_ignores_clients | intros s].
  destruct (bool_decide _); [| apply ignores_clients_ret].
  apply ignores_clients_bind; [apply ignores_clients_open_write | intros _].
  apply ignores_clients_ret.
Qed.

Section readable.

Context (input_file : string) (chunk_size : Z).

Lemma split_loop_readable lines line_number s w s' w' es :
  (∀ p, p ∈ utils.chunk_files s → is_Some (fs w !! p)) →
  utils.split_loop input_file chunk_size lines line_number s w = (Ret s', w', es) →
  ∀ p, p ∈ utils.chunk_files s' → is_Some (fs w' !! p).
Proof.
  revert line_number s w. induction lines as [|line rest IH]; intros line_number s w Hs.
  { by intros [= <- <- <-]. }
  cbn [utils.split_loop]. unfold utils.py_mod.
  destruct (chunk_size =? 0); [done |].
  unfold bind at 1. cbn [ret].
  destruct (line_number mod chunk_size =? 0).
  - unfold bind at 1. unfold bind at 1. cbn [open_write ret app].
    match goal with |- context [utils.split_loop _ _ rest ?n ?s1 ?w1] =>
      pose proof (IH n s1 w1) as IH';
      destruct (utils.split_loop input_file chunk_size rest n s1 w1)
        as [[[s2|e|] w2] e2] end; [| done | done].
    intros [= <- <- <-]. apply IH'; [| done].
    cbn. intros p Hp. apply lookup_insert_is_Some'.
    apply elem_of_app in Hp as [Hp|Hp]; [right; by apply Hs | left].
    by apply list_elem_of_singleton in Hp as ->.
  - unfold bind at 1. cbn [ret app].
    match goal with |- context [utils.split_loop _ _ rest ?n ?s1 w] =>
      pose proof (IH n s1 w) as IH';
      destruct (utils.split_loop input_file chunk_size rest n s1 w)
        as [[[s2|e|] w2] e2] end; [| done | done].
    intros [= <- <- <-]. by apply IH'.
Qed.

Lemma split_jsonl_file_readable w chunk_files w' es :
  utils.split_jsonl_file input_file chunk_size w = (Ret chunk_files, w', es) →
  ∀ p, p ∈ chunk_files → is_Some (fs w' !! p).
Proof.
  unfold utils.split_jsonl_file, bind at 1, open_read.
  destruct (fs w !! input_file) as [infile|]; [| done].
  unfold bind at 1.
  destruct (utils.split_loop input_file chunk_size infile 1 _ w)
    as [[[s|e|] w1] e1] eqn:Hloop; [| done | done].
  pose proof (split_loop_readable _ _ _ _ _ _ _
                (λ p (H : p ∈ []), False_ind _ (not_elem_of_nil p H)) Hloop)
    as Hreadable.
  destruct (bool_decide _).
  - unfold bind, open_write, ret. cbn. intros [= <- <- <-] p Hp. cbn.
    apply lookup_insert_is_Some'.
    apply elem_of_app in Hp as [Hp|Hp]; [right; by apply Hreadable | left].
    by apply list_elem_of_singleton in Hp as ->.
  - cbn. intros [= <- <- <-]. apply Hreadable.
Qed.

End readable.

(** X19. End to end, the module as it is written uploads nothing: when the
    split of the input gives chunk files, [run_batch_processing] writes the
    chunks and then fails every unit at the unbound [os]; it returns
    normally, sends no request, downloads and deletes nothing, so that the
    files at the end are those the split left, every chunk file among them;
    between the chunk count and the closing of the client its records are
    the three records of each unit and the warning listing every chunk as
    failed. *)
Theorem run_as_written (remote : nat → request → reply) (API_KEY : string)
    (fuel : nat) (input_file output_dir : string) (chunk_size : Z)
    (completion_window endpoint : string) (w : world) (chunk_files : list string) :
  let split := utils.split_jsonl_file input_file chunk_size w in
  outcome split = Ret chunk_files →
  chunk_files ≠ [] →
  let run := cli.run_batch_processing (Env batch_manager.module_globals remote) API_KEY
               fuel input_file output_dir chunk_size completion_window endpoint w in
  outcome run = Ret tt ∧
  fs (final run) = fs (final split) ∧
  (∀ p, p ∈ chunk_files → is_Some (fs (final run) !! p)) ∧
  sent (final run) = sent w ∧
  events run
  = [EvClientOpen (clients w); EvLog INFO MsgSplitting;
     EvLog INFO (MsgTotalChunks (length chunk_files))]
    ++ (chunk_files ≫= name_error_records)
    ++ [report chunk_files; EvClientClose (clients w)].
Proof.
  intros split Hsplit Hchunks run.
  assert (Hreadable : ∀ p, p ∈ chunk_files → is_Some (fs (final split) !! p)).
  { apply (split_jsonl_file_readable input_file chunk_size w chunk_files
             (final split) (events split)).
    rewrite <- Hsplit. subst split. unfold outcome, final, events.
    by destruct (utils.split_jsonl_file input_file chunk_size w) as [[r w1] e1]. }
  destruct (split_jsonl_file_writes_chunks (same sent) (λ _, False) input_file
              (λ _ _ _, eq_refl) chunk_size w) as [Hsent Hquiet].
  apply Forall_False_nil in Hquiet. fold split in Hsent, Hquiet.
  assert (Hrun : run
                 = (Ret tt,
                    final (utils.ensure_directory output_dir
                             (with_clients (S (clients w)) (final split))),
                    [EvClientOpen (clients w); EvLog INFO MsgSplitting;
                     EvLog INFO (MsgTotalChunks (length chunk_files))]
                    ++ (chunk_files ≫= name_error_records)
                    ++ [report chunk_files; EvClientClose (clients w)])).
  { subst run. unfold cli.run_batch_processing.
    erewrite bind_Ret; [| reflexivity].
    change (World (fs w) (dirs w) (sent w) (S (clients w)))
      with (with_clients (S (clients w)) w).
    unfold try_finally, try_except, log. rewrite bind_emit.
    erewrite bind_Ret;
      [| rewrite split_jsonl_file_ignores_clients; fold split;
         rewrite Hsplit, Hquiet; reflexivity].
    rewrite bind_emit. rewrite bool_decide_false by done.
    rewrite process_batches_unbound by done.
    unfold prepend, batch_manager.close, emit. cbn.
    by rewrite <- !app_assoc. }
  rewrite Hrun. unfold outcome, final, events. cbn [fst snd].
  destruct (ensure_directory_run output_dir
              (with_clients (S (clients w)) (final split))) as [_ Hfs].
  destruct (ensure_directory_frame output_dir
              (with_clients (S (clients w)) (final split))) as [Hsent' _].
  unfold final in Hfs, Hsent'. rewrite Hfs, Hsent'. split_and!; try done.
Qed.

(** X19 on an input of three lines split by two, and a remote that would
    accept everything. *)
Lemma run_as_written_witness :
  let remote := scripted [ok_json [("id", JStr "file_1")];
                          ok_json [("id", JStr "batch_1")]] in
  let w := World {[ "in.jsonl" := ["a"; "b"; "c"] ]} ∅ 0 0 in
  let run := cli.run_batch_processing (Env batch_manager.module_globals remote) "key"
               5 "in.jsonl" "out" 2 "24h" "/v1/completions" w in
  outcome run = Ret tt ∧
  fs (final run) !! "in.jsonl_chunk_2.jsonl" = Some ["c"] ∧
  sent (final run) = 0%nat.
Proof.
  intros remote w run.
  destruct (run_as_written remote "key" 5 "in.jsonl" "out" 2 "24h" "/v1/completions" w
              ["in.jsonl_chunk_1.jsonl"; "in.jsonl_chunk_2.jsonl"])
    as (Hret & Hfs & _ & Hsent & _).
  - vm_compute. reflexivity.
  - discriminate.
  - subst run. split_and!; [exact Hret | | exact Hsent].
    rewrite Hfs. vm_compute. reflexivity.
Defined.
